(** * tldr-scribe: a shallow embedding of [bot.py]

    The bot polls a microblogging API for mentions, and has helpers that
    download a video's audio track, transcribe it, summarise the transcript
    and render an HTML page.  This development embeds [TranscriptFormatter]
    and [TLDRBot] of [src/bot.py] and states their properties.

    Modelling conventions.
    - A Python [str] is a list of Unicode code points ([list N]); ASCII
      literals are written with [str "..."], the bullet U+2022 is [bullet].
    - Python integers are [Z].
    - A method is a computation in the monad [M]: it threads the [world]
      (the bot's [last_mention_id], a call counter, the trace of external
      calls and the files on disk) and returns a value or raises an [exn].
      The world changes made before a [raise] are kept, as in Python.
    - Third-party services (tweepy, pytube, replicate, the disk, the clock,
      [markdown], [hashlib.md5]) are the fields of an [env]: each call is
      answered by the environment, as a function of the call counter, with a
      value or an exception.  [print] and [time.sleep] are logged in the
      trace and do not fail.
    - [exn] stands for instances of Python's [Exception], the class every
      handler of [bot.py] catches. *)

From Stdlib Require Import ZArith NArith Ascii String DecimalString.
From stdpp Require Import base option list gmap.

Set Warnings "-register-all".
Local Open Scope Z_scope.

(** ** Python strings *)

Abbreviation pystr := (list N).

Definition str (s : string) : pystr :=
  map N_of_ascii (list_ascii_of_string s).

Definition dquote : N := 34%N.
Definition newline : N := 10%N.
Definition bullet : N := 8226%N.
Definition lbrace : N := 123%N.
Definition rbrace : N := 125%N.

Definition in_range (lo hi c : N) : bool := ((lo <=? c) && (c <=? hi))%N.

(** [Py_UNICODE_ISSPACE]: the code points [str.strip()] removes. *)
Definition isspace (c : N) : bool :=
  in_range 9 13 c || in_range 28 32 c || (c =? 133)%N || (c =? 160)%N
  || (c =? 5760)%N || in_range 8192 8202 c || (c =? 8232)%N || (c =? 8233)%N
  || (c =? 8239)%N || (c =? 8287)%N || (c =? 12288)%N.

Fixpoint lstrip (s : pystr) : pystr :=
  match s with
  | c :: s' => if isspace c then lstrip s' else s
  | [] => []
  end.

Definition rstrip (s : pystr) : pystr := rev (lstrip (rev s)).

(** [s.strip()] *)
Definition strip (s : pystr) : pystr := rstrip (lstrip s).

(** [s.startswith(p)] *)
Fixpoint startswith (p s : pystr) : bool :=
  match p, s with
  | [], _ => true
  | a :: p', b :: s' => (a =? b)%N && startswith p' s'
  | _ :: _, [] => false
  end.

(** [sep.join(parts)] *)
Fixpoint join (sep : pystr) (parts : list pystr) : pystr :=
  match parts with
  | [] => []
  | [p] => p
  | p :: rest => p ++ sep ++ join sep rest
  end.

(** [s.split(sep)] for a non-empty separator: a left-to-right scan; [cur]
    holds the piece being read, reversed, and [skip] counts the characters
    of a separator just recognised that are still to be passed over. *)
Fixpoint split_scan (sep : pystr) (skip : nat) (cur : pystr) (s : pystr)
  : list pystr :=
  match s with
  | [] => [rev cur]
  | c :: s' =>
      match skip with
      | S k => split_scan sep k cur s'
      | O =>
          if startswith sep s
          then rev cur :: split_scan sep (length sep - 1) [] s'
          else split_scan sep O (c :: cur) s'
      end
  end.

Definition split (sep s : pystr) : list pystr := split_scan sep O [] s.

(** [s.replace(a, b)] for one-character [a] and [b] *)
Definition replace_char (a b : N) (s : pystr) : pystr :=
  map (fun c => if (c =? a)%N then b else c) s.

(** [s[i:j]] for [0 <= i <= j] *)
Definition slice (s : pystr) (i j : nat) : pystr := take (j - i) (drop i s).

(** [str(n)] for an integer *)
Definition str_of_Z (z : Z) : pystr := str (NilZero.string_of_int (Z.to_int z)).

(** [os.path.join(a, b)] on a POSIX system *)
Definition path_join (a b : pystr) : pystr :=
  if startswith (str "/") b then b
  else match last a with
       | None => b
       | Some c => if (c =? 47)%N then a ++ b else a ++ str "/" ++ b
       end.

(** [s.encode()]: UTF-8, strict; a lone surrogate cannot be encoded. *)
Definition utf8_char (c : N) : option (list N) :=
  (if c <? 128 then Some [c]
   else if c <? 2048 then Some [192 + c / 64; 128 + c mod 64]
   else if in_range 55296 57343 c then None
   else if c <? 65536 then
     Some [224 + c / 4096; 128 + (c / 64) mod 64; 128 + c mod 64]
   else
     Some [240 + c / 262144; 128 + (c / 4096) mod 64;
           128 + (c / 64) mod 64; 128 + c mod 64])%N.

Fixpoint utf8_encode (s : pystr) : option (list N) :=
  match s with
  | [] => Some []
  | c :: s' =>
      match utf8_char c, utf8_encode s' with
      | Some bs, Some rest => Some (bs ++ rest)
      | _, _ => None
      end
  end.

(** ** Values, exceptions and the outside world *)

(** The dynamically typed values the bot exchanges with its libraries. *)
Inductive pyval :=
| VNone
| VBool (b : bool)
| VInt (n : Z)
| VFloat (mantissa exponent : Z)   (* the decimal literal m * 10^e *)
| VStr (s : pystr)
| VFile (handle : N)
| VList (items : list pyval)
| VDict (items : list (pystr * pyval)).

(** Instances of [Exception]. *)
Inductive exn :=
| KeyError (key : pystr)
| IndexError (msg : pystr)
| ValueError (msg : pystr)
| TypeError (msg : pystr)
| AttributeError (msg : pystr)
| UnicodeEncodeError (msg : pystr)
| LibraryError (cls msg : pystr).   (* raised inside a third-party call *)

Inductive outcome (A : Type) :=
| Ret (a : A)
| Raise (e : exn).
Arguments Ret {A} a.
Arguments Raise {A} e.

(** tweepy's objects, with the fields [bot.py] reads. *)
Record ReferencedTweet := { ref_type : pystr; ref_id : Z }.

Record Tweet := {
  tweet_id : Z;
  tweet_text : pystr;
  referenced_tweets : option (list ReferencedTweet)
}.

Record User := { user_id : Z; username : pystr }.

Record Media := { media_type : pystr; media_url : option pystr }.

(** [tweepy.Response]: [data] is [None] when nothing matched; [includes] is
    a dictionary whose ['media'] entry lists the attached media. *)
Record Response := {
  data : option (list Tweet);
  includes : list (pystr * list Media)
}.

(** One entry of the trace per call that leaves the process (and per
    [print]). *)
Inductive event :=
| EvPrint (line : pystr)
| EvSleep (seconds : Z)
| EvGetMe
| EvGetUsersMentions (id : Z) (max_results : Z) (since_id : option Z)
| EvGetTweet (id : Z)
| EvYouTube (url : pystr)
| EvFirstAudioStream (yt : N)
| EvMkdtemp
| EvDownload (stream : N) (filename : pystr)
| EvOpen (path mode : pystr)
| EvReplicateRun (model : pystr) (input : list (pystr * pyval))
| EvNow
| EvWrite (path content : pystr).

(** The environment answers every external call; the first argument of an
    answer is the value of the call counter when the call is made. *)
Record env := {
  str_exn : exn -> pystr;                                  (* [str(e)] *)
  client_get_me : nat -> outcome User;
  client_get_users_mentions : nat -> Z -> Z -> option Z -> outcome Response;
  client_get_tweet : nat -> Z -> outcome Response;
  pytube_YouTube : nat -> pystr -> outcome N;
  pytube_first_audio : nat -> N -> outcome (option N);
  tempfile_mkdtemp : nat -> outcome pystr;
  pytube_download : nat -> N -> pystr -> outcome unit;
  builtin_open : nat -> pystr -> pystr -> outcome N;
  replicate_run : nat -> pystr -> list (pystr * pyval) -> outcome pyval;
  datetime_now_strftime : nat -> pystr -> pystr;
  file_write : nat -> pystr -> pystr -> outcome unit;
  os_environ : pystr -> option pystr;
  markdown_markdown : pystr -> pystr;
  md5_hexdigest : list N -> pystr;
  (* what [str.format] does with a field whose name has an attribute or an
     index, a conversion or a format specification *)
  format_field : pystr -> pystr -> option N -> pystr -> outcome pystr
}.

Record world := World {
  last_mention_id : option Z;
  clock : nat;
  trace : list event;
  files : gmap pystr pystr
}.

Definition tick (ev : event) (w : world) : world :=
  {| last_mention_id := last_mention_id w;
     clock := S (clock w);
     trace := trace w ++ [ev];
     files := files w |}.

Definition log (ev : event) (w : world) : world :=
  {| last_mention_id := last_mention_id w;
     clock := clock w;
     trace := trace w ++ [ev];
     files := files w |}.

(** ** The monad of bot computations *)

Definition M (A : Type) : Type := world -> outcome A * world.

Definition ret {A} (a : A) : M A := fun w => (Ret a, w).

Definition raise {A} (e : exn) : M A := fun w => (Raise e, w).

Definition bind {A B} (m : M A) (k : A -> M B) : M B :=
  fun w =>
    match m w with
    | (Ret a, w') => k a w'
    | (Raise e, w') => (Raise e, w')
    end.

(** [try: m  except Exception as e: h e] *)
Definition try_except {A} (m : M A) (h : exn -> M A) : M A :=
  fun w =>
    match m w with
    | (Ret a, w') => (Ret a, w')
    | (Raise e, w') => h e w'
    end.

#[global] Instance M_ret : MRet M := @ret.
#[global] Instance M_bind : MBind M := fun A B k m => bind m k.

(** A call answered by the environment. *)
Definition extern {A} (ev : event) (answer : nat -> outcome A) : M A :=
  fun w => (answer (clock w), tick ev w).

Definition lift {A} (o : outcome A) : M A := fun w => (o, w).

Definition py_print (line : pystr) : M unit :=
  fun w => (Ret tt, log (EvPrint line) w).

Definition time_sleep (seconds : Z) : M unit :=
  fun w => (Ret tt, log (EvSleep seconds) w).

Definition get_last_mention_id : M (option Z) :=
  fun w => (Ret (last_mention_id w), w).

Definition set_last_mention_id (v : option Z) : M unit :=
  fun w => (Ret tt, {| last_mention_id := v; clock := clock w;
                       trace := trace w; files := files w |}).

(** [for x in xs: body x] *)
Fixpoint for_each {A} (xs : list A) (body : A -> M unit) : M unit :=
  match xs with
  | [] => ret tt
  | x :: rest => body x ;; for_each rest body
  end.

(** ** [TLDRBot.get_new_mentions] *)

(** [max(tweet.id for tweet in mentions.data)] on a non-empty batch *)
Definition max_id (t : Tweet) (ts : list Tweet) : Z :=
  fold_left (fun acc u => Z.max acc (tweet_id u)) ts (tweet_id t).

(** The condition of the reply filter: the attribute is present and
    truthy, and one reference has type ["replied_to"]. *)
Definition is_reply (mention : Tweet) : bool :=
  match referenced_tweets mention with
  | None => false
  | Some [] => false
  | Some refs =>
      existsb (fun ref => bool_decide (ref_type ref = str "replied_to")) refs
  end.

(** The loop that appends the replies to [new_mentions]. *)
Definition replies_only (batch : list Tweet) : list Tweet :=
  fold_left (fun new_mentions mention =>
               if is_reply mention then new_mentions ++ [mention]
               else new_mentions)
            batch [].

Definition get_new_mentions_body (E : env) : M (list Tweet) :=
  me ← extern EvGetMe (client_get_me E);
  since ← get_last_mention_id;
  mentions ← extern (EvGetUsersMentions (user_id me) 5 since)
                    (fun t => client_get_users_mentions E t (user_id me) 5 since);
  match data mentions with
  | None | Some [] => mret []
  | Some (t :: ts) =>
      set_last_mention_id (Some (max_id t ts));;
      mret (replies_only (t :: ts))
  end.

Definition get_new_mentions (E : env) : M (list Tweet) :=
  try_except (get_new_mentions_body E)
    (fun e => py_print (str "Error getting mentions: " ++ str_exn E e);;
              mret []).

(** ** [TLDRBot.get_video_url] and [TLDRBot.extract_video_url] *)

Fixpoint dict_get {V} (k : pystr) (d : list (pystr * V)) : option V :=
  match d with
  | [] => None
  | (k', v) :: rest => if bool_decide (k' = k) then Some v else dict_get k rest
  end.

Definition get_video_url_body (E : env) (tweet_id : Z) : M (option pystr) :=
  tweet ← extern (EvGetTweet tweet_id) (fun t => client_get_tweet E t tweet_id);
  match includes tweet with
  | [] => mret None
  | _ :: _ =>
      match dict_get (str "media") (includes tweet) with
      | Some _ => mret None          (* [pass] *)
      | None => mret None
      end
  end.

Definition get_video_url (E : env) (tweet_id : Z) : M (option pystr) :=
  try_except (get_video_url_body E tweet_id)
    (fun e => py_print (str "Error getting video URL: " ++ str_exn E e);;
              mret None).

Fixpoint first_video (media : list Media) : option (option pystr) :=
  match media with
  | [] => None
  | m :: rest =>
      if bool_decide (media_type m = str "video") then Some (media_url m)
      else first_video rest
  end.

Definition extract_video_url (E : env) (tweet : Response) : M (option pystr) :=
  try_except
    (match includes tweet with
     | [] => mret None
     | _ :: _ =>
         match dict_get (str "media") (includes tweet) with
         | Some media =>
             match first_video media with
             | Some url => mret url
             | None => mret None
             end
         | None => mret None
         end
     end)
    (fun e => py_print (str "Error extracting video URL: " ++ str_exn E e);;
              mret None).

(** ** URL extraction: [re.findall] with the pattern of [run] *)

Definition is_alpha (c : N) : bool := in_range 97 122 c || in_range 65 90 c.
Definition is_digit (c : N) : bool := in_range 48 57 c.
Definition is_hex (c : N) : bool :=
  is_digit c || in_range 97 102 c || in_range 65 70 c.

Definition one_of (chars : string) (c : N) : bool :=
  existsb (N.eqb c) (str chars).

(** The one-character alternatives [[a-zA-Z]], [[0-9]], [[$-_@.&+]] (a range
    from ['$'] to ['_'], then four characters) and [[!*\(\),]]. *)
Definition url_char (c : N) : bool :=
  is_alpha c || is_digit c || (in_range 36 95 c || one_of "@.&+" c)
  || one_of "!*()," c.

(** One round of the repeated group: the number of characters it takes.
    The last alternative is a percent sign and two hexadecimal digits. *)
Definition url_step (s : pystr) : option nat :=
  match s with
  | c :: rest =>
      if url_char c then Some 1%nat
      else match rest with
           | h1 :: h2 :: _ =>
               if (c =? 37)%N && is_hex h1 && is_hex h2 then Some 3%nat
               else None
           | _ => None
           end
  | [] => None
  end.

(** The greedy repetition: the number of characters it takes in all. *)
Fixpoint url_body (fuel : nat) (s : pystr) : nat :=
  match fuel with
  | O => O
  | S fuel' =>
      match url_step s with
      | Some n => (n + url_body fuel' (drop n s))%nat
      | None => O
      end
  end.

(** After [prefix] characters of [s], match [://] and the repetition. *)
Definition match_tail (s : pystr) (prefix : nat) : option pystr :=
  let r := drop prefix s in
  if startswith (str "://") r then
    match url_body (length r) (drop 3 r) with
    | O => None
    | n => Some (take (prefix + 3 + n) s)
    end
  else None.

(** A match of the whole pattern at the start of [s]. *)
Definition match_url (s : pystr) : option pystr :=
  if startswith (str "http") s then
    match drop 4 s with
    | 115%N :: _ =>
        match match_tail s 5 with
        | Some m => Some m
        | None => match_tail s 4
        end
    | _ => match_tail s 4
    end
  else None.

(** [re.findall(pattern, s)]: the matches from left to right, the search
    resuming at the end of each match. *)
Fixpoint findall_scan (skip : nat) (s : pystr) : list pystr :=
  match s with
  | [] => []
  | _ :: s' =>
      match skip with
      | S k => findall_scan k s'
      | O =>
          match match_url s with
          | Some m => m :: findall_scan (length m - 1) s'
          | None => findall_scan O s'
          end
      end
  end.

Definition findall_url (s : pystr) : list pystr := findall_scan O s.

(** ** [TLDRBot.run] *)

(** The body of the inner [try] of the loop, for one mention. *)
Definition process_mention (mention : Tweet) : M unit :=
  py_print (str "Processing mention: " ++ tweet_text mention);;
  let urls := findall_url (tweet_text mention) in
  match urls with
  | video_url :: _ => py_print (str "Found URL: " ++ video_url)
  | [] => py_print (str "No URL found in mention: "
                      ++ str_of_Z (tweet_id mention))
  end.

(** The inner [try ... except Exception ... continue] around [body]. *)
Definition guarded (E : env) (body : Tweet -> M unit) (mention : Tweet)
  : M unit :=
  try_except (body mention)
    (fun e => py_print (str "Error processing mention "
                          ++ str_of_Z (tweet_id mention) ++ str ": "
                          ++ str_exn E e)).

(** One round of [while True], with the per-mention work as a parameter. *)
Definition run_iteration_with (E : env) (body : Tweet -> M unit) : M unit :=
  try_except
    (mentions ← get_new_mentions E;
     for_each mentions (guarded E body);;
     time_sleep 60)
    (fun e => py_print (str "Error in main loop: " ++ str_exn E e);;
              time_sleep 60).

Definition run_iteration (E : env) : M unit :=
  run_iteration_with E process_mention.

(** [n] rounds of the loop; an exception leaving a round ends the loop. *)
Fixpoint run_loop_with (E : env) (body : Tweet -> M unit) (n : nat) : M unit :=
  match n with
  | O => mret tt
  | S n' => run_iteration_with E body;; run_loop_with E body n'
  end.

Definition run_loop (E : env) (n : nat) : M unit :=
  run_loop_with E process_mention n.

(** [run], cut after [n] rounds of its loop.  The start-up query returns
    from [run] on failure, before the loop is entered. *)
Definition run (E : env) (n : nat) : M unit :=
  py_print (str "Bot started - checking for mentions...");;
  started ← try_except
      (me ← extern EvGetMe (client_get_me E);
       py_print (str "Bot running as user @" ++ username me);;
       mret true)
      (fun e => py_print (str "Error getting bot user info: " ++ str_exn E e);;
                mret false);
  if started : bool then run_loop E n else mret tt.

(** ** [str.format] with keyword arguments

    The scanner of CPython's [MarkupIterator]: literal text, doubled braces,
    and replacement fields [{name!conversion:spec}]. *)

Definition outcome_map {A B} (f : A -> B) (o : outcome A) : outcome B :=
  match o with
  | Ret a => Ret (f a)
  | Raise e => Raise e
  end.

(** The field name runs to the first ['}'], [':'] or ['!'] outside square
    brackets.  Returns the name, the terminator and the text after it. *)
Fixpoint scan_name (in_bracket : bool) (acc : pystr) (s : pystr)
  : outcome (pystr * N * pystr) :=
  match s with
  | [] => Raise (ValueError (str "expected '}' before end of string"))
  | c :: rest =>
      if in_bracket then
        scan_name (negb (c =? 93)%N) (c :: acc) rest
      else if (c =? lbrace)%N then
        Raise (ValueError (str "unexpected '{' in field name"))
      else if (c =? 91)%N then scan_name true (c :: acc) rest
      else if (c =? rbrace)%N || (c =? 58)%N || (c =? 33)%N then
        Ret (rev acc, c, rest)
      else scan_name false (c :: acc) rest
  end.

(** The format specification runs to the brace that closes the field;
    [count] is the nesting depth. *)
Fixpoint scan_spec (count : nat) (acc : pystr) (s : pystr)
  : outcome (pystr * pystr) :=
  match s with
  | [] => Raise (ValueError (str "unmatched '{' in format spec"))
  | c :: rest =>
      if (c =? lbrace)%N then scan_spec (S count) (c :: acc) rest
      else if (c =? rbrace)%N then
        match count with
        | 1%nat => Ret (rev acc, rest)
        | _ => scan_spec (count - 1) (c :: acc) rest
        end
      else scan_spec count (c :: acc) rest
  end.

Record field := {
  field_name : pystr;
  conversion : option N;
  format_spec : pystr;
  after_field : pystr
}.

(** [parse_field], on the text that follows an opening brace. *)
Definition parse_field (s : pystr) : outcome field :=
  match scan_name false [] s with
  | Raise e => Raise e
  | Ret (name, c, rest) =>
      let with_spec conv rest' :=
        outcome_map (fun '(spec, after) =>
                       {| field_name := name; conversion := conv;
                          format_spec := spec; after_field := after |})
                    (scan_spec 1 [] rest') in
      if (c =? rbrace)%N then
        Ret {| field_name := name; conversion := None;
               format_spec := []; after_field := rest |}
      else if (c =? 58)%N then with_spec None rest
      else
        match rest with
        | [] => Raise (ValueError
                  (str "end of string while looking for conversion specifier"))
        | conv :: [] => with_spec (Some conv) []
        | conv :: c2 :: rest' =>
            if (c2 =? rbrace)%N then
              Ret {| field_name := name; conversion := Some conv;
                     format_spec := []; after_field := rest' |}
            else if (c2 =? 58)%N then with_spec (Some conv) rest'
            else Raise (ValueError
                   (str "expected ':' after conversion specifier"))
        end
  end.

(** The part of a field name before the first ['.'] or ['[']. *)
Fixpoint first_part (s : pystr) : pystr * pystr :=
  match s with
  | [] => ([], [])
  | c :: rest =>
      if (c =? 46)%N || (c =? 91)%N then ([], s)
      else let '(a, b) := first_part rest in (c :: a, b)
  end.

Definition digits_value (s : pystr) : N :=
  fold_left (fun acc c => (10 * acc + (c - 48))%N) s 0%N.

(** [get_field_object] and the rendering of the object.  The call has no
    positional arguments, so an empty or numeric name finds nothing; any
    other name is looked up among the keyword arguments.  (Digits are the
    ASCII digits.) *)
Definition render_field (E : env) (kwargs : list (pystr * pystr)) (f : field)
  : outcome pystr :=
  let '(first, rest) := first_part (field_name f) in
  match first with
  | [] => Raise (IndexError
            (str "Replacement index 0 out of range for positional args tuple"))
  | _ :: _ =>
      if forallb is_digit first then
        if (digits_value first <=? 9223372036854775807)%N then
          Raise (IndexError
            (str "Replacement index " ++ str_of_Z (Z.of_N (digits_value first))
               ++ str " out of range for positional args tuple"))
        else Raise (ValueError (str "Too many decimal digits in format string"))
      else
        match dict_get first kwargs with
        | None => Raise (KeyError first)
        | Some value =>
            match rest, conversion f, format_spec f with
            | [], None, [] => Ret value
            | _, _, _ => format_field E value rest (conversion f) (format_spec f)
            end
        end
  end.

(** The main scan.  [skip] counts the characters of a field, or the second
    of two doubled braces, that the scan has yet to pass over. *)
Fixpoint format_scan (E : env) (kwargs : list (pystr * pystr)) (skip : nat)
    (s : pystr) : outcome pystr :=
  match s with
  | [] => Ret []
  | c :: rest =>
      match skip with
      | S k => format_scan E kwargs k rest
      | O =>
          if (c =? rbrace)%N then
            match rest with
            | c2 :: _ =>
                if (c2 =? rbrace)%N
                then outcome_map (cons c) (format_scan E kwargs 1 rest)
                else Raise (ValueError
                       (str "Single '}' encountered in format string"))
            | [] => Raise (ValueError
                      (str "Single '}' encountered in format string"))
            end
          else if (c =? lbrace)%N then
            match rest with
            | [] => Raise (ValueError
                      (str "Single '{' encountered in format string"))
            | c2 :: _ =>
                if (c2 =? lbrace)%N
                then outcome_map (cons c) (format_scan E kwargs 1 rest)
                else
                  match parse_field rest with
                  | Raise e => Raise e
                  | Ret f =>
                      match render_field E kwargs f with
                      | Raise e => Raise e
                      | Ret v =>
                          outcome_map (app v)
                            (format_scan E kwargs
                               (length rest - length (after_field f)) rest)
                      end
                  end
            end
          else outcome_map (cons c) (format_scan E kwargs O rest)
      end
  end.

(** [template.format] applied to keyword arguments *)
Definition py_format (E : env) (template : pystr)
    (kwargs : list (pystr * pystr)) : outcome pystr :=
  format_scan E kwargs O template.

(** [TranscriptFormatter.HTML_TEMPLATE]; its double quotes are spliced in
    with [dquote]. *)
Definition HTML_TEMPLATE : pystr :=
  join [dquote] [
    str "
    <!DOCTYPE html>
    <html lang=";
    str "en";
    str ">
    <head>
        <meta charset=";
    str "UTF-8";
    str ">
        <meta name=";
    str "viewport";
    str " content=";
    str "width=device-width, initial-scale=1.0";
    str ">
        <title>{title}</title>
        <style>
            body {
                font-family: -apple-system, BlinkMacSystemFont, 'Segoe UI', Roboto, 'Helvetica Neue', Arial, sans-serif;
                line-height: 1.6;
                max-width: 800px;
                margin: 0 auto;
                padding: 2rem;
                background: #f5f5f5;
            }
            .container {
                background: white;
                padding: 2rem;
                border-radius: 8px;
                box-shadow: 0 2px 4px rgba(0, 0, 0, 0.1);
            }
            .metadata {
                color: #666;
                font-size: 0.9rem;
                margin-bottom: 2rem;
                padding-bottom: 1rem;
                border-bottom: 1px solid #eee;
            }
            .content {
                font-size: 1.1rem;
            }
            h1 {
                color: #2c3e50;
                margin-top: 0;
            }
            .summary {
                background: #f8f9fa;
                padding: 1.5rem;
                border-left: 4px solid #4a9eff;
                margin: 1.5rem 0;
            }
            .transcript {
                margin-top: 2rem;
            }
            .timestamp {
                color: #666;
                font-size: 0.9rem;
                margin-right: 0.5rem;
            }
        </style>
    </head>
    <body>
        <div class=";
    str "container";
    str ">
            <h1>{title}</h1>
            <div class=";
    str "metadata";
    str ">
                <div>Transcribed: {date}</div>
                <div>Original Tweet: <a href=";
    str "{tweet_url}";
    str ">View on Twitter</a></div>
            </div>
            <div class=";
    str "content";
    str ">
                <div class=";
    str "summary";
    str ">
                    <h2>Summary</h2>
                    {summary}
                </div>
                <div class=";
    str "transcript";
    str ">
                    <h2>Full Transcript</h2>
                    {content}
                </div>
            </div>
        </div>
    </body>
    </html>
    "
  ].

(** ** [TranscriptFormatter.format_transcript] *)

(** The lines of the transcript that are not blank, each stripped, joined
    by blank lines. *)
Definition markdown_lines (transcript : pystr) : list pystr :=
  map strip
    (List.filter (fun line => negb (bool_decide (strip line = [])))
       (split [newline] transcript)).

Definition markdown_content (transcript : pystr) : pystr :=
  join [newline; newline] (markdown_lines transcript).

(** [open(filepath, "w")] and [f.write(html)] *)
Definition write_file (E : env) (path content : pystr) : M unit :=
  fun w =>
    match file_write E (clock w) path content with
    | Ret _ =>
        (Ret tt,
         tick (EvWrite path content)
           {| last_mention_id := last_mention_id w; clock := clock w;
              trace := trace w; files := <[path := content]> (files w) |})
    | Raise e => (Raise e, tick (EvWrite path content) w)
    end.

Definition format_transcript (E : env) (transcript_dir : pystr)
    (transcript summary tweet_url : pystr) : M pystr :=
  let markdown_content := markdown_content transcript in
  let summary_content := replace_char bullet 42 summary in
  let html_content := markdown_markdown E markdown_content in
  let html_summary := markdown_markdown E summary_content in
  encoded ← lift (match utf8_encode transcript with
                  | Some bytes => Ret bytes
                  | None => Raise (UnicodeEncodeError
                                     (str "surrogates not allowed"))
                  end);
  let transcript_id := take 10 (md5_hexdigest E encoded) in
  date ← extern EvNow
           (fun t => Ret (datetime_now_strftime E t (str "%B %d, %Y")));
  html ← lift (py_format E HTML_TEMPLATE
                 [(str "title", str "Video Transcript");
                  (str "date", date);
                  (str "tweet_url", tweet_url);
                  (str "summary", html_summary);
                  (str "content", html_content)]);
  let filename := str "transcript_" ++ transcript_id ++ str ".html" in
  let filepath := path_join transcript_dir filename in
  write_file E filepath html;;
  mret filename.

(** ** The pipeline helpers of [TLDRBot] *)

(** [self.transcript_formatter] is built with the default directory. *)
Definition transcript_dir : pystr := str "transcripts".

Definition save_transcript_body (E : env) (transcript summary tweet_url : pystr)
  : M (option pystr) :=
  filename ← format_transcript E transcript_dir transcript summary tweet_url;
  let base_url := default (str "http://localhost:5000")
                          (os_environ E (str "BASE_URL")) in
  mret (Some (base_url ++ str "/transcript/" ++ filename)).

Definition save_transcript (E : env) (transcript summary tweet_url : pystr)
  : M (option pystr) :=
  try_except (save_transcript_body E transcript summary tweet_url)
    (fun e => py_print (str "Error saving transcript: " ++ str_exn E e);;
              mret None).

Definition download_video_audio_body (E : env) (video_url : pystr)
  : M (option pystr) :=
  yt ← extern (EvYouTube video_url) (fun t => pytube_YouTube E t video_url);
  audio_stream ← extern (EvFirstAudioStream yt)
                        (fun t => pytube_first_audio E t yt);
  temp_dir ← extern EvMkdtemp (tempfile_mkdtemp E);
  let temp_path := path_join temp_dir (str "temp_audio.mp3") in
  match audio_stream with
  | None => raise (AttributeError
                     (str "'NoneType' object has no attribute 'download'"))
  | Some stream =>
      extern (EvDownload stream temp_path)
             (fun t => pytube_download E t stream temp_path)
  end;;
  mret (Some temp_path).

Definition download_video_audio (E : env) (video_url : pystr)
  : M (option pystr) :=
  try_except (download_video_audio_body E video_url)
    (fun e => py_print (str "Error downloading video: " ++ str_exn E e);;
              mret None).

Definition whisper_model : pystr :=
  str "vaibhavs10/incredibly-fast-whisper:3ab86df6c8f54c11309d4d1f930ac292bad43ace52d10c80d87eb258b3c9f79c".

Definition whisper_input (audio : N) : list (pystr * pyval) :=
  [(str "audio", VFile audio);
   (str "language", VStr (str "auto"));
   (str "model_name", VStr (str "large-v3"));
   (str "temperature", VInt 0);
   (str "word_timestamps", VBool false)].

(** [output[key]] for a string key *)
Definition subscript (output : pyval) (key : pystr) : outcome pyval :=
  match output with
  | VDict items =>
      match dict_get key items with
      | Some v => Ret v
      | None => Raise (KeyError key)
      end
  | VStr _ => Raise (TypeError (str "string indices must be integers"))
  | VList _ => Raise (TypeError (str "list indices must be integers or slices"))
  | _ => Raise (TypeError (str "object is not subscriptable"))
  end.

Definition transcribe_video_body (E : env) (audio_path : pystr) : M pyval :=
  audio ← extern (EvOpen audio_path (str "rb"))
                 (fun t => builtin_open E t audio_path (str "rb"));
  output ← extern (EvReplicateRun whisper_model (whisper_input audio))
                  (fun t => replicate_run E t whisper_model (whisper_input audio));
  lift (subscript output (str "text")).

(** Returns [VNone] for Python's [None]. *)
Definition transcribe_video (E : env) (audio_path : pystr) : M pyval :=
  try_except (transcribe_video_body E audio_path)
    (fun e => py_print (str "Error transcribing video: " ++ str_exn E e);;
              mret VNone).

(** ** [TLDRBot.create_summary] *)

Definition max_length : nat := 1024.

(** [range(start, stop, step)], listed the way it is iterated. *)
Fixpoint py_range (fuel start stop step : nat) : list nat :=
  match fuel with
  | O => []
  | S fuel' =>
      if (start <? stop)%nat
      then start :: py_range fuel' (start + step) stop step
      else []
  end.

Definition chunks (transcript : pystr) : list pystr :=
  map (fun i => slice transcript i (i + max_length))
      (py_range (length transcript) 0 (length transcript) max_length).

Definition llama_model : pystr :=
  str "meta/llama-2-70b-chat:02e509c789964a7ea8736978a43525956ef40397be9033abf9fd2badfe68c9e3".

Definition prompt (chunk : pystr) : pystr :=
  str "Please provide a concise bullet-point summary of the following text. Focus on the key points and main ideas:

" ++ chunk ++ str "

Format the response as bullet points starting with " ++ [dquote; bullet; dquote]
  ++ str ". Keep each bullet point brief and clear.".

Definition llama_input (chunk : pystr) : list (pystr * pyval) :=
  [(str "prompt", VStr (prompt chunk));
   (str "temperature", VFloat 3 (-1));
   (str "max_tokens", VInt 500);
   (str "top_p", VFloat 9 (-1))].

(** [output.strip()]: only a string has the method. *)
Definition py_strip (output : pyval) : outcome pystr :=
  match output with
  | VStr s => Ret (strip s)
  | _ => Raise (AttributeError (str "object has no attribute 'strip'"))
  end.

(** The clean-up of one stripped chunk summary. *)
Definition add_bullet (summary : pystr) : pystr :=
  if negb (startswith [bullet] summary)
  then [bullet; 32%N] ++ summary
  else summary.

(** What the loop makes of the text the model returns for a chunk. *)
Definition chunk_summary (output : pystr) : pystr := add_bullet (strip output).

(** The loop over the chunks, [summaries] being the list built so far. *)
Fixpoint summarize_chunks (E : env) (chunks : list pystr)
    (summaries : list pystr) : M (list pystr) :=
  match chunks with
  | [] => mret summaries
  | chunk :: rest =>
      output ← extern (EvReplicateRun llama_model (llama_input chunk))
                 (fun t => replicate_run E t llama_model (llama_input chunk));
      summary ← lift (py_strip output);
      summarize_chunks E rest (summaries ++ [add_bullet summary])
  end.

Definition create_summary_body (E : env) (transcript : pystr)
  : M (option pystr) :=
  summaries ← summarize_chunks E (chunks transcript) [];
  mret (Some (join [newline] summaries)).

Definition create_summary (E : env) (transcript : pystr) : M (option pystr) :=
  try_except (create_summary_body E transcript)
    (fun e => py_print (str "Error creating summary: " ++ str_exn E e);;
              mret None).

(** ** Auxiliary notions for the statements *)

(** The raw batch a poll receives in world [w]: the [data] of the response,
    or nothing when a call fails or [data] is [None]. *)
Definition raw_batch (E : env) (w : world) : list Tweet :=
  match client_get_me E (clock w) with
  | Ret me =>
      match client_get_users_mentions E (S (clock w)) (user_id me) 5
              (last_mention_id w) with
      | Ret response => default [] (data response)
      | Raise _ => []
      end
  | Raise _ => []
  end.

(** The API returns only mentions newer than [since_id]. *)
Definition api_honours_since (E : env) : Prop :=
  forall t uid mr c response batch,
    client_get_users_mentions E t uid mr (Some c) = Ret response ->
    data response = Some batch ->
    Forall (fun u => c < tweet_id u) batch.

(** Everything [n] successive polls return, starting in world [w]. *)
Fixpoint poll_results (E : env) (n : nat) (w : world) : list Tweet :=
  match n with
  | O => []
  | S n' =>
      let '(r, w') := get_new_mentions E w in
      match r with Ret l => l | Raise _ => [] end ++ poll_results E n' w'
  end.

Fixpoint ascending (ids : list Z) : bool :=
  match ids with
  | a :: (b :: _) as rest => (a <? b) && ascending rest
  | _ => true
  end.

(** The mentions a round of the loop works on. *)
Definition polled (E : env) (w : world) : list Tweet :=
  match fst (get_new_mentions E w) with
  | Ret l => l
  | Raise _ => []
  end.

(** The world a round of the loop leaves: the poll, every polled mention
    under its guard, in order, then the pause. *)
Definition after_round (E : env) (body : Tweet -> M unit) (w : world) : world :=
  log (EvSleep 60)
    (fold_left (fun w' mention => snd (guarded E body mention w'))
       (polled E w) (snd (get_new_mentions E w))).

Fixpoint after_rounds (E : env) (body : Tweet -> M unit) (n : nat) (w : world)
  : world :=
  match n with
  | O => w
  | S n' => after_rounds E body n' (after_round E body w)
  end.

(** The two lines [run] prints for a mention. *)
Definition mention_lines (mention : Tweet) : list event :=
  [EvPrint (str "Processing mention: " ++ tweet_text mention);
   EvPrint match findall_url (tweet_text mention) with
           | video_url :: _ => str "Found URL: " ++ video_url
           | [] => str "No URL found in mention: "
                     ++ str_of_Z (tweet_id mention)
           end].

(** The stages the specification lists for a mention, as they would show
    in the trace. *)
Inductive stage := Fetch | Transcribe | Summarize | Format.

Definition is_stage (url : pystr) (s : stage) (ev : event) : bool :=
  match s, ev with
  | Fetch, EvYouTube u => bool_decide (u = url)
  | Transcribe, EvReplicateRun m _ => bool_decide (m = whisper_model)
  | Summarize, EvReplicateRun m _ => bool_decide (m = llama_model)
  | Format, EvWrite _ _ => true
  | _, _ => false
  end.

Fixpoint stages_in_order (url : pystr) (stages : list stage) (tr : list event)
  : bool :=
  match stages, tr with
  | [], _ => true
  | _ :: _, [] => false
  | s :: rest, ev :: tr' =>
      if is_stage url s ev then stages_in_order url rest tr'
      else stages_in_order url stages tr'
  end.

(** The specification's reading of the paragraphs of a transcript: the
    maximal runs of consecutive lines that are not blank. *)
Fixpoint spec_runs (cur : list pystr) (lines : list pystr)
  : list (list pystr) :=
  match lines with
  | [] => match cur with [] => [] | _ :: _ => [rev cur] end
  | l :: rest =>
      if bool_decide (strip l = []) then
        match cur with
        | [] => spec_runs [] rest
        | _ :: _ => rev cur :: spec_runs [] rest
        end
      else spec_runs (l :: cur) rest
  end.

Definition spec_paragraphs (transcript : pystr) : list (list pystr) :=
  spec_runs [] (split [newline] transcript).

(** The blocks a markdown source is made of: its pieces between blank
    lines. *)
Definition blocks (source : pystr) : list pystr :=
  split [newline; newline] source.

(** The key of the first replacement field of [HTML_TEMPLATE] that is not
    an argument of [format]: the body of the first CSS rule. *)
Definition css_key : pystr := newline :: str "                font-family".

(** ** Concrete environments *)

(** A timeline served newest first, at most [max_results] at a time, and
    only above [since_id]. *)
Definition mentions_since (timeline : list Tweet) (max_results : Z)
    (since_id : option Z) : Response :=
  let newer :=
    List.filter (fun u => match since_id with
                          | Some c => c <? tweet_id u
                          | None => true
                          end) timeline in
  match take (Z.to_nat max_results) newer with
  | [] => {| data := None; includes := [] |}
  | batch => {| data := Some batch; includes := [] |}
  end.

Definition bot_user : User := {| user_id := 42; username := str "tldr" |}.

Definition timeline_env (timeline : list Tweet) (llm : nat -> outcome pyval)
  : env := {|
  str_exn := fun _ => str "error";
  client_get_me := fun _ => Ret bot_user;
  client_get_users_mentions := fun _ _ mr since =>
    Ret (mentions_since timeline mr since);
  client_get_tweet := fun _ _ => Ret {| data := None; includes := [] |};
  pytube_YouTube := fun _ _ =>
    Raise (LibraryError (str "RegexMatchError") (str "regex_search"));
  pytube_first_audio := fun _ _ => Ret None;
  tempfile_mkdtemp := fun _ => Ret (str "/tmp/tmpabc");
  pytube_download := fun _ _ _ => Ret tt;
  builtin_open := fun _ _ _ => Ret 0%N;
  replicate_run := fun t _ _ => llm t;
  datetime_now_strftime := fun _ _ => str "January 01, 2025";
  file_write := fun _ _ _ => Ret tt;
  os_environ := fun _ => None;
  markdown_markdown := fun s => s;
  md5_hexdigest := fun _ => str "5d41402abc4b2a76b9719d911017c592";
  format_field := fun v _ _ _ => Ret v
|}.

Definition reply_to (id : Z) : option (list ReferencedTweet) :=
  Some [{| ref_type := str "replied_to"; ref_id := id |}].

Definition tweet (id : Z) (text : string)
    (refs : option (list ReferencedTweet)) : Tweet :=
  {| tweet_id := id; tweet_text := str text; referenced_tweets := refs |}.

(** Mentions 107 to 109 of which only 107 is a reply. *)
Definition timeline_109 : list Tweet :=
  [ tweet 109 "@bot hello" None;
    tweet 108 "@bot nice" (Some [{| ref_type := str "quoted"; ref_id := 7 |}]);
    tweet 107 "@bot transcribe https://video.example/watch?v=abc please"
      (reply_to 100) ].

(** Two replies, as the API lists them. *)
Definition timeline_replies : list Tweet :=
  [ tweet 109 "@bot https://video.example/watch?v=xyz" (reply_to 101);
    tweet 107 "@bot transcribe https://video.example/watch?v=abc please"
      (reply_to 100) ].

Definition initial_world : world :=
  {| last_mention_id := None; clock := 0; trace := []; files := ∅ |}.

(** ** [app.py]: configuration *)

Definition DEFAULT_HOST : pystr := str "http://localhost:5000".
Definition TRANSCRIPT_DIR : pystr := str "transcripts".

(** The start-up step that gives [BASE_URL] a value when the environment
    has none; returns the environment and what is printed. *)
Definition set_default_base_url (environ : gmap pystr pystr)
  : gmap pystr pystr * list event :=
  match environ !! str "BASE_URL" with
  | Some _ => (environ, [])
  | None =>
      (<[str "BASE_URL" := DEFAULT_HOST]> environ,
       [EvPrint (str "No BASE_URL found in environment, using default: "
                   ++ DEFAULT_HOST)])
  end.

(** ** Further notions for the statements *)

(** The calls and lines a round of the loop may leave in the trace. *)
Definition is_loop_event (ev : event) : bool :=
  match ev with
  | EvPrint _ | EvSleep _ | EvGetMe | EvGetUsersMentions _ _ _ => true
  | _ => false
  end.

Definition is_pause (ev : event) : bool :=
  match ev with
  | EvSleep seconds => seconds =? 60
  | _ => false
  end.

(** The API never lists a mention twice in a batch. *)
Definition api_batches_distinct (E : env) : Prop :=
  forall t uid mr since response batch,
    client_get_users_mentions E t uid mr since = Ret response ->
    data response = Some batch ->
    NoDup (map tweet_id batch).

(** An environment in which the video and model services answer. *)
Definition media_env (stream : option N) (llm : nat -> outcome pyval) : env := {|
  str_exn := fun _ => str "error";
  client_get_me := fun _ => Ret bot_user;
  client_get_users_mentions := fun _ _ _ _ =>
    Ret {| data := None; includes := [] |};
  client_get_tweet := fun _ _ => Ret {| data := None; includes := [] |};
  pytube_YouTube := fun _ _ => Ret 7%N;
  pytube_first_audio := fun _ _ => Ret stream;
  tempfile_mkdtemp := fun _ => Ret (str "/tmp/tmpabc");
  pytube_download := fun _ _ _ => Ret tt;
  builtin_open := fun _ _ _ => Ret 3%N;
  replicate_run := fun t _ _ => llm t;
  datetime_now_strftime := fun _ _ => str "January 01, 2025";
  file_write := fun _ _ _ => Ret tt;
  os_environ := fun _ => None;
  markdown_markdown := fun s => s;
  md5_hexdigest := fun _ => str "5d41402abc4b2a76b9719d911017c592";
  format_field := fun v _ _ _ => Ret v
|}.

(** * Properties *)

#[local] Arguments N.eqb : simpl never.

(** ** The string functions on examples *)

Example strip_example : strip (str "  a b  ") = str "a b".
Proof. reflexivity. Qed.

Example strip_unicode_example :
  strip [160%N; 8232%N; bullet; 32%N; 97%N; 12288%N; 10%N] = [bullet; 32%N; 97%N].
Proof. reflexivity. Qed.

Example split_example :
  split (str "--") (str "a--b---c") = [str "a"; str "b"; str "-c"].
Proof. reflexivity. Qed.

Example split_trailing_example :
  split [newline] (str "a" ++ [newline]) = [str "a"; []].
Proof. reflexivity. Qed.

Example str_of_Z_example : str_of_Z 109 = str "109".
Proof. reflexivity. Qed.

Example findall_example :
  findall_url
    (str "@bot transcribe https://video.example/watch?v=abc please http://a%zz~b https:// http://")
  = [str "https://video.example/watch?v=abc"; str "http://a%zz"].
Proof. vm_compute. reflexivity. Qed.

Example findall_none_example : findall_url (str "@bot hello httpx://a") = [].
Proof. vm_compute. reflexivity. Qed.

Example format_example E :
  py_format E (str "a{{b}}c{title}d") [(str "title", str "XY")]
  = Ret (str "a{b}cXYd").
Proof. vm_compute. reflexivity. Qed.

Example format_css_example E :
  py_format E (str "<b>{title}</b> p { margin: 0 }") [(str "title", str "XY")]
  = Raise (KeyError (str " margin")).
Proof. vm_compute. reflexivity. Qed.

Example format_single_brace_example E :
  py_format E (str "{title}}") [(str "title", str "XY")]
  = Raise (ValueError (str "Single '}' encountered in format string")).
Proof. vm_compute. reflexivity. Qed.

Example markdown_content_example :
  markdown_content (str "one" ++ [newline] ++ str " two " ++ [newline; newline]
                      ++ str "three" ++ [newline])
  = str "one" ++ [newline; newline] ++ str "two" ++ [newline; newline]
      ++ str "three".
Proof. vm_compute. reflexivity. Qed.

Example chunks_example :
  map length (chunks (repeat 97%N 2049)) = [1024; 1024; 1]%nat.
Proof. vm_compute. reflexivity. Qed.

(** ** The monad *)

Ltac unfold_monad :=
  unfold mbind, M_bind, mret, M_ret, bind, ret, raise, lift, extern,
    try_except, py_print, time_sleep, get_last_mention_id,
    set_last_mention_id in *.

Lemma try_except_fst {A} (m : M A) (line : exn -> pystr) (dflt : A) w :
  fst (try_except m (fun e => py_print (line e);; mret dflt) w)
  = match fst (m w) with Ret a => Ret a | Raise _ => Ret dflt end.
Proof.
  unfold_monad. destruct (m w) as [[a|e] w']; reflexivity.
Qed.

Lemma try_except_files {A} (m : M A) (line : exn -> pystr) (dflt : A) w :
  files (snd (try_except m (fun e => py_print (line e);; mret dflt) w))
  = files (snd (m w)).
Proof.
  unfold_monad. destruct (m w) as [[a|e] w']; reflexivity.
Qed.

(** ** The HTML template cannot be formatted *)

Lemma template_format_raises E date tweet_url summary content :
  py_format E HTML_TEMPLATE
    [(str "title", str "Video Transcript"); (str "date", date);
     (str "tweet_url", tweet_url); (str "summary", summary);
     (str "content", content)]
  = Raise (KeyError css_key).
Proof. vm_compute. reflexivity. Qed.

Lemma format_transcript_outcome E dir transcript summary tweet_url w :
  fst (format_transcript E dir transcript summary tweet_url w)
  = match utf8_encode transcript with
    | Some _ => Raise (KeyError css_key)
    | None => Raise (UnicodeEncodeError (str "surrogates not allowed"))
    end
  /\ files (snd (format_transcript E dir transcript summary tweet_url w))
     = files w.
Proof.
  unfold format_transcript. unfold_monad.
  destruct (utf8_encode transcript) as [bytes|]; [|done].
  rewrite template_format_raises. done.
Qed.

(** C2.  The file name [format_transcript] was written to return is
    ['transcript_' ++ md5(T)[:10] ++ '.html'], a function of the transcript
    alone; but the call never gets there.  For every transcript, summary and
    URL, [HTML_TEMPLATE.format] raises: the braces of the template's CSS
    rules are read as replacement fields, and the first of them names no
    argument ([KeyError]); a transcript with a lone surrogate fails earlier,
    in [encode].  So no file name is returned, no file is written, and
    [save_transcript] returns [None]. *)
Theorem format_transcript_never_returns E dir transcript summary tweet_url w :
  (fst (format_transcript E dir transcript summary tweet_url w)
   = match utf8_encode transcript with
     | Some _ => Raise (KeyError css_key)
     | None => Raise (UnicodeEncodeError (str "surrogates not allowed"))
     end)
  /\ files (snd (format_transcript E dir transcript summary tweet_url w))
     = files w
  /\ fst (save_transcript E transcript summary tweet_url w) = Ret None
  /\ files (snd (save_transcript E transcript summary tweet_url w)) = files w.
Proof.
  pose proof (format_transcript_outcome E dir transcript summary tweet_url w)
    as [Hfst Hfiles].
  pose proof (format_transcript_outcome E transcript_dir transcript summary
                tweet_url w) as [Hfst' Hfiles'].
  split; [exact Hfst|]. split; [exact Hfiles|].
  unfold save_transcript.
  rewrite try_except_fst, try_except_files.
  unfold save_transcript_body. unfold_monad.
  destruct (format_transcript E transcript_dir transcript summary tweet_url w)
    as [[filename|e] w'] eqn:Hf; simpl in *.
  - destruct (utf8_encode transcript); discriminate.
  - done.
Qed.

(** ** No helper lets an exception out *)

Lemma get_new_mentions_total E w :
  exists l, fst (get_new_mentions E w) = Ret l.
Proof.
  unfold get_new_mentions. rewrite try_except_fst.
  destruct (fst (get_new_mentions_body E w)); eauto.
Qed.

Lemma download_unsupported E video_url w e :
  pytube_YouTube E (clock w) video_url = Raise e ->
  fst (download_video_audio_body E video_url w) = Raise e.
Proof.
  intros H. unfold download_video_audio_body. unfold_monad. rewrite H. done.
Qed.

(** C7.  Each pipeline operation is a [try] around its whole body with a
    handler that logs and returns the failure value: whatever the body
    raises (an [Exception], see the header), [get_new_mentions] returns
    the empty list and [download_video_audio], [transcribe_video],
    [create_summary] and [save_transcript] return [None]; otherwise they
    return what the body returns.  In particular [download_video_audio]
    returns [None] when pytube rejects the URL. *)
Theorem pipeline_operations_catch_failures
    E video_url audio_path transcript summary tweet_url w :
  fst (get_new_mentions E w)
  = match fst (get_new_mentions_body E w) with
    | Ret l => Ret l | Raise _ => Ret []
    end
  /\ fst (download_video_audio E video_url w)
     = match fst (download_video_audio_body E video_url w) with
       | Ret r => Ret r | Raise _ => Ret None
       end
  /\ fst (transcribe_video E audio_path w)
     = match fst (transcribe_video_body E audio_path w) with
       | Ret r => Ret r | Raise _ => Ret VNone
       end
  /\ fst (create_summary E transcript w)
     = match fst (create_summary_body E transcript w) with
       | Ret r => Ret r | Raise _ => Ret None
       end
  /\ fst (save_transcript E transcript summary tweet_url w)
     = match fst (save_transcript_body E transcript summary tweet_url w) with
       | Ret r => Ret r | Raise _ => Ret None
       end
  /\ match pytube_YouTube E (clock w) video_url with
     | Raise _ => fst (download_video_audio E video_url w) = Ret None
     | Ret _ => True
     end.
Proof.
  unfold get_new_mentions, download_video_audio, transcribe_video,
    create_summary, save_transcript.
  rewrite !try_except_fst. repeat split.
  destruct (pytube_YouTube E (clock w) video_url) as [yt|e] eqn:H; [done|].
  by rewrite (download_unsupported _ _ _ _ H).
Qed.

(** ** [get_video_url] *)

Lemma match_tail_prefix s k m :
  match_tail s k = Some m -> exists post, s = m ++ post.
Proof.
  unfold match_tail. destruct (startswith _ _); [|done].
  destruct (url_body _ _) as [|n]; [done|].
  intros [= <-]. eexists. symmetry. apply take_drop.
Qed.

Lemma match_url_prefix s m :
  match_url s = Some m -> exists post, s = m ++ post.
Proof.
  unfold match_url. destruct (startswith _ _); [|done].
  destruct (drop 4 s) as [|c r]; [apply match_tail_prefix|].
  destruct (c =? 115)%N eqn:Hc.
  - apply N.eqb_eq in Hc as ->.
    destruct (match_tail s 5) as [m'|] eqn:H5.
    + intros [= <-]. by apply match_tail_prefix in H5.
    + apply match_tail_prefix.
  - destruct c as [|p]; [apply match_tail_prefix|].
    repeat (destruct p as [p|p|]; try apply match_tail_prefix);
      discriminate Hc.
Qed.

Lemma findall_scan_infix s : forall skip,
  Forall (fun m => exists pre post, s = pre ++ m ++ post) (findall_scan skip s).
Proof.
  induction s as [|c s IH]; intros skip; [constructor|].
  assert (forall k, Forall (fun m => exists pre post, c :: s = pre ++ m ++ post)
                      (findall_scan k s)) as Hrest.
  { intros k. eapply Forall_impl; [apply IH|].
    intros m (pre & post & ->). by exists (c :: pre), post. }
  cbn [findall_scan]. destruct skip as [|k]; [|apply Hrest].
  destruct (match_url (c :: s)) as [m|] eqn:Hm; [|apply Hrest].
  constructor; [|apply Hrest].
  apply match_url_prefix in Hm as [post Hpost]. by exists [], post.
Qed.

(** C10.  [get_video_url] returns [None] for every tweet identifier, whatever
    the API answers: the branch that sees attached media is [pass].  The
    URLs [run] works with are the matches of its pattern in the text of the
    mention, each a piece of that text. *)
Theorem get_video_url_none E tweet_id text w :
  fst (get_video_url E tweet_id w) = Ret None
  /\ Forall (fun url => exists pre post, text = pre ++ url ++ post)
       (findall_url text).
Proof.
  split; [|apply findall_scan_infix].
  unfold get_video_url. rewrite try_except_fst.
  unfold get_video_url_body. unfold_monad.
  destruct (client_get_tweet E (clock w) tweet_id) as [r|e]; simpl; [|done].
  destruct (includes r); [done|].
  destruct (dict_get _ _); done.
Qed.

(** ** The bullet of a chunk summary *)

(** C5, as stated: every line of a normalised chunk output starts with the
    bullet.  It fails on an output of two lines whose first line has the
    bullet: the second line is left as it is. *)
Lemma chunk_summary_line_without_bullet :
  ~ (forall output line,
       In line (split [newline] (chunk_summary output)) ->
       startswith [bullet] line = true).
Proof.
  intros H.
  specialize (H ([bullet; 32%N] ++ str "a" ++ [newline] ++ str "b") (str "b")).
  vm_compute in H. assert (false = true) by (apply H; right; left; reflexivity).
  discriminate.
Qed.

(** C5, amended.  The chunk output is normalised as a whole: it is stripped
    of surrounding whitespace, and the bullet and a space are put in front
    exactly when the stripped text does not start with the bullet.  The
    result starts with the bullet; the lines after the first are not
    looked at. *)
Theorem chunk_summary_starts_with_bullet output :
  startswith [bullet] (chunk_summary output) = true
  /\ chunk_summary output
     = (if startswith [bullet] (strip output) then strip output
        else [bullet; 32%N] ++ strip output).
Proof.
  unfold chunk_summary, add_bullet.
  destruct (startswith [bullet] (strip output)) eqn:H; simpl; auto.
Qed.

(** ** The paragraphs of the transcript page *)

Lemma lstrip_In s x : In x (lstrip s) -> In x s.
Proof.
  induction s as [|c s IH]; simpl; [done|].
  destruct (isspace c); [right; auto | done].
Qed.

Lemma strip_In s x : In x (strip s) -> In x s.
Proof.
  unfold strip, rstrip. intros H.
  apply in_rev, lstrip_In in H. apply in_rev in H.
  by apply lstrip_In.
Qed.

Lemma split_newline_pieces cur s :
  ~ In newline cur ->
  Forall (fun p => ~ In newline p) (split_scan [newline] O cur s).
Proof.
  revert cur. induction s as [|c s IH]; intros cur Hcur; simpl.
  - constructor; [|constructor]. by rewrite <- in_rev.
  - destruct (N.eqb_spec newline c) as [Heq|Hne]; simpl.
    + constructor; [by rewrite <- in_rev|]. apply IH. intros [].
    + apply IH. intros [Heq|Hin]; [by apply Hne|by apply Hcur].
Qed.

Lemma blank_line_scan_piece p cur s :
  ~ In newline p ->
  split_scan [newline; newline] O cur (p ++ newline :: newline :: s)
  = rev (rev p ++ cur) :: split_scan [newline; newline] O [] s.
Proof.
  revert cur. induction p as [|c p IH]; intros cur Hp.
  - simpl. destruct s; reflexivity.
  - cbn [app split_scan].
    assert (startswith [newline; newline] (c :: p ++ newline :: newline :: s)
            = false) as ->.
    { simpl. destruct (N.eqb_spec newline c) as [Heq|]; [|done].
      exfalso. apply Hp. left. by symmetry. }
    rewrite IH by (intros Hin; apply Hp; by right).
    simpl. by rewrite <- !app_assoc.
Qed.

Lemma blank_line_scan_last p cur :
  ~ In newline p ->
  split_scan [newline; newline] O cur p = [rev (rev p ++ cur)].
Proof.
  revert cur. induction p as [|c p IH]; intros cur Hp; [done|].
  cbn [split_scan].
  assert (startswith [newline; newline] (c :: p) = false) as ->.
  { simpl. destruct (N.eqb_spec newline c) as [Heq|]; [|done].
    exfalso. apply Hp. left. by symmetry. }
  rewrite IH by (intros Hin; apply Hp; by right).
  simpl. by rewrite <- !app_assoc.
Qed.

Lemma blocks_join p ps :
  Forall (fun q => ~ In newline q) (p :: ps) ->
  blocks (join [newline; newline] (p :: ps)) = p :: ps.
Proof.
  unfold blocks, split. revert p.
  induction ps as [|q ps IH]; intros p Hall.
  - simpl. rewrite blank_line_scan_last by (by inversion Hall).
    by rewrite app_nil_r, rev_involutive.
  - inversion Hall as [|? ? Hp Hrest]; subst.
    change (join [newline; newline] (p :: q :: ps))
      with (p ++ newline :: newline :: join [newline; newline] (q :: ps)).
    rewrite blank_line_scan_piece by done.
    rewrite app_nil_r, rev_involutive. f_equal. by apply IH.
Qed.

Lemma markdown_lines_clean transcript :
  Forall (fun b => b <> [] /\ ~ In newline b) (markdown_lines transcript).
Proof.
  unfold markdown_lines, split.
  pose proof (split_newline_pieces [] transcript (fun H => H)) as Hpieces.
  induction Hpieces as [|line lines Hline _ IH]; simpl; [constructor|].
  destruct (bool_decide (strip line = [])) eqn:Hb; simpl; [done|].
  constructor; [|done]. split.
  - by apply bool_decide_eq_false in Hb.
  - intros Hin. by apply Hline, strip_In.
Qed.

(** C9, as stated: one paragraph per maximal run of consecutive non-blank
    lines.  Two consecutive lines are one run, but [format_transcript] puts
    a blank line between them and so makes two blocks of them. *)
Lemma consecutive_lines_are_two_blocks :
  ~ (forall transcript,
       length (blocks (markdown_content transcript))
       = length (spec_paragraphs transcript)).
Proof.
  intros H. specialize (H (str "a" ++ [newline] ++ str "b")).
  vm_compute in H. discriminate.
Qed.

(** C9, amended.  Each line of the transcript that is not blank becomes a
    block of its own: the markdown source is made of the non-blank lines,
    each stripped, with a blank line between any two of them, so that its
    blocks are exactly these lines (none is empty or holds a line break).
    Blank lines are dropped; consecutive lines are not merged. *)
Theorem markdown_content_one_block_per_line transcript :
  blocks (markdown_content transcript)
  = match markdown_lines transcript with
    | [] => [[]]
    | ls => ls
    end
  /\ Forall (fun b => b <> [] /\ ~ In newline b) (markdown_lines transcript)
  /\ markdown_lines transcript
     = map strip (List.filter (fun line => negb (bool_decide (strip line = [])))
                    (split [newline] transcript)).
Proof.
  pose proof (markdown_lines_clean transcript) as Hclean.
  split; [|split; [exact Hclean | reflexivity]].
  unfold markdown_content.
  destruct (markdown_lines transcript) as [|p ps]; [reflexivity|].
  apply blocks_join.
  eapply Forall_impl; [exact Hclean|]. by intros b [_ Hb].
Qed.

(** ** The chunks of [create_summary] *)

Lemma py_range_count fuel start stop step :
  (0 < step)%nat -> (stop - start <= fuel)%nat ->
  py_range fuel start stop step
  = map (fun k => (start + k * step)%nat)
        (seq 0 ((stop - start + (step - 1)) / step)).
Proof.
  intros Hstep. revert start.
  induction fuel as [|fuel IH]; intros start Hfuel.
  - replace (stop - start)%nat with 0%nat by lia.
    rewrite Nat.div_small by lia. reflexivity.
  - cbn [py_range]. destruct (Nat.ltb_spec start stop) as [Hlt|Hge].
    + rewrite IH by lia.
      replace ((stop - start + (step - 1)) / step)%nat
        with (S ((stop - (start + step) + (step - 1)) / step)).
      * cbn [seq map]. f_equal; [lia|].
        rewrite <- seq_shift, map_map. apply map_ext. intros k. lia.
      * destruct (Nat.le_gt_cases step (stop - start)) as [Hle|Hgt].
        -- replace (stop - start + (step - 1))%nat
             with (stop - (start + step) + (step - 1) + 1 * step)%nat by lia.
           rewrite Nat.div_add by lia. lia.
        -- replace (stop - (start + step))%nat with 0%nat by lia.
           rewrite (Nat.div_small (0 + (step - 1))) by lia.
           apply (Nat.div_unique _ _ 1%nat (stop - start - 1)); lia.
    + replace (stop - start)%nat with 0%nat by lia.
      rewrite Nat.div_small by lia. reflexivity.
Qed.

Lemma chunks_by_index transcript :
  chunks transcript
  = map (fun k => slice transcript (k * 1024) (k * 1024 + 1024))
        (seq 0 ((length transcript + 1023) / 1024)).
Proof.
  unfold chunks, max_length.
  rewrite py_range_count by lia.
  rewrite map_map. rewrite Nat.sub_0_r. reflexivity.
Qed.

Lemma concat_slices n : forall s : pystr,
  (length s <= n * 1024)%nat ->
  concat (map (fun k => slice s (k * 1024) (k * 1024 + 1024)) (seq 0 n)) = s.
Proof.
  induction n as [|n IH]; intros s Hlen.
  - destruct s; [reflexivity | simpl in Hlen; lia].
  - cbn [seq map concat]. rewrite <- seq_shift, map_map.
    transitivity (take 1024 s ++ drop 1024 s); [|apply take_drop]. f_equal.
    etransitivity; [|apply (IH (drop 1024 s)); rewrite length_drop; lia].
    f_equal. apply map_ext. intros k. unfold slice.
    rewrite drop_drop. f_equal; lia.
Qed.

Lemma summarize_chunks_run E cs : forall summaries w (out : nat -> pystr),
  (forall k chunk, cs !! k = Some chunk ->
     replicate_run E (clock w + k) llama_model (llama_input chunk)
     = Ret (VStr (out k))) ->
  summarize_chunks E cs summaries w
  = (Ret (summaries ++ map (fun k => chunk_summary (out k)) (seq 0 (length cs))),
     {| last_mention_id := last_mention_id w;
        clock := clock w + length cs;
        trace := trace w
                 ++ map (fun c => EvReplicateRun llama_model (llama_input c)) cs;
        files := files w |}).
Proof.
  induction cs as [|chunk cs IH]; intros summaries w out Hout.
  - destruct w. simpl. unfold_monad. simpl.
    by rewrite !app_nil_r, Nat.add_0_r.
  - cbn [summarize_chunks]. unfold_monad.
    rewrite <- (Nat.add_0_r (clock w)) at 1.
    rewrite (Hout 0%nat chunk eq_refl). cbn [py_strip].
    rewrite (IH _ (tick _ w) (fun k => out (S k))).
    + cbn [length seq map tick last_mention_id clock trace files].
      rewrite <- seq_shift, map_map, <- !app_assoc. simpl.
      do 2 f_equal. f_equal. lia.
    + intros k c Hk. cbn [tick clock].
      replace (S (clock w) + k)%nat with (clock w + S k)%nat by lia.
      by apply Hout.
Qed.

(** C4.  [create_summary] cuts the transcript into consecutive pieces of
    1024 characters, [ceil(L/1024)] of them for a transcript of length [L],
    the [k]-th being [transcript[1024k : 1024k+1024]]; put end to end they
    are the transcript.  When every call to the language model returns a
    text (a call that raises aborts the summary, see C7), there is exactly
    one call per chunk, in chunk order, and the summary is the normalised
    outputs of these calls, in the same order, one per line. *)
Theorem create_summary_one_call_per_chunk E transcript w (out : nat -> pystr) :
  let n := ((length transcript + 1023) / 1024)%nat in
  length (chunks transcript) = n
  /\ chunks transcript
     = map (fun k => slice transcript (k * 1024) (k * 1024 + 1024)) (seq 0 n)
  /\ concat (chunks transcript) = transcript
  /\ ((forall k chunk, chunks transcript !! k = Some chunk ->
         replicate_run E (clock w + k) llama_model (llama_input chunk)
         = Ret (VStr (out k))) ->
      fst (create_summary E transcript w)
      = Ret (Some (join [newline]
                     (map (fun k => chunk_summary (out k)) (seq 0 n))))
      /\ trace (snd (create_summary E transcript w))
         = trace w ++ map (fun c => EvReplicateRun llama_model (llama_input c))
                          (chunks transcript)).
Proof.
  intros n.
  assert (length (chunks transcript) = n) as Hlen.
  { rewrite chunks_by_index, length_map, length_seq. reflexivity. }
  split; [exact Hlen|]. split; [apply chunks_by_index|]. split.
  { rewrite chunks_by_index. apply concat_slices.
    pose proof (Nat.div_mod_eq (length transcript + 1023) 1024).
    pose proof (Nat.mod_upper_bound (length transcript + 1023) 1024).
    fold n in H. lia. }
  intros Hout.
  unfold create_summary, create_summary_body. unfold_monad.
  rewrite (summarize_chunks_run E _ [] w out Hout). rewrite Hlen.
  simpl. done.
Qed.

(** A transcript of 2050 characters is cut into three chunks and takes
    three calls. *)
Lemma create_summary_three_chunks :
  let E := timeline_env [] (fun _ => Ret (VStr (str " point "))) in
  let transcript := repeat 97%N 2050 in
  (forall k chunk, chunks transcript !! k = Some chunk ->
     replicate_run E (clock initial_world + k) llama_model (llama_input chunk)
     = Ret (VStr (str " point ")))
  /\ length (chunks transcript) = 3%nat
  /\ fst (create_summary E transcript initial_world)
     = Ret (Some (join [newline]
                    (repeat ([bullet; 32%N] ++ str "point") 3)))
  /\ length (trace (snd (create_summary E transcript initial_world))) = 3%nat.
Proof.
  intros E transcript.
  assert (forall k chunk, chunks transcript !! k = Some chunk ->
            replicate_run E (clock initial_world + k) llama_model
              (llama_input chunk) = Ret (VStr (str " point "))) as Hout
    by reflexivity.
  destruct (create_summary_one_call_per_chunk E transcript initial_world
              (fun _ => str " point ")) as (Hlen & _ & _ & Hsum).
  destruct (Hsum Hout) as [Hr Htr].
  split; [exact Hout|]. split; [exact Hlen|]. split; [exact Hr|].
  rewrite Htr, length_app, length_map, Hlen. reflexivity.
Defined.

(** ** Polling *)

Lemma replies_only_filter batch : replies_only batch = List.filter is_reply batch.
Proof.
  unfold replies_only.
  enough (forall acc,
            fold_left (fun new_mentions mention =>
                         if is_reply mention then new_mentions ++ [mention]
                         else new_mentions) batch acc
            = acc ++ List.filter is_reply batch) as H by apply (H []).
  induction batch as [|m batch IH]; intros acc; simpl.
  - by rewrite app_nil_r.
  - rewrite IH. destruct (is_reply m); [|done]. by rewrite <- app_assoc.
Qed.

Lemma fold_max_ge ts : forall acc,
  acc <= fold_left (fun a u => Z.max a (tweet_id u)) ts acc
  /\ Forall (fun u => tweet_id u
                      <= fold_left (fun a u => Z.max a (tweet_id u)) ts acc) ts.
Proof.
  induction ts as [|u ts IH]; intros acc; simpl.
  - split; [lia | constructor].
  - destruct (IH (Z.max acc (tweet_id u))) as [Hacc Hall].
    split; [lia|]. constructor; [lia | exact Hall].
Qed.

Lemma fold_max_in ts : forall acc,
  fold_left (fun a u => Z.max a (tweet_id u)) ts acc = acc
  \/ exists u, In u ts
       /\ tweet_id u = fold_left (fun a u => Z.max a (tweet_id u)) ts acc.
Proof.
  induction ts as [|u ts IH]; intros acc; simpl; [by left|].
  destruct (IH (Z.max acc (tweet_id u))) as [Heq|(v & Hin & Hv)].
  - destruct (Z.max_spec acc (tweet_id u)) as [[_ Hm]|[_ Hm]].
    + right. exists u. split; [by left | lia].
    + left. lia.
  - right. exists v. split; [by right | exact Hv].
Qed.

Lemma max_id_is_maximum t ts :
  Forall (fun u => tweet_id u <= max_id t ts) (t :: ts)
  /\ exists u, In u (t :: ts) /\ tweet_id u = max_id t ts.
Proof.
  unfold max_id. destruct (fold_max_ge ts (tweet_id t)) as [Ht Hts].
  split; [by constructor|].
  destruct (fold_max_in ts (tweet_id t)) as [Heq|(u & Hin & Hu)].
  - exists t. split; [by left | by rewrite Heq].
  - exists u. split; [by right | exact Hu].
Qed.

(** What a poll returns and where it leaves the cursor, in every case. *)
Lemma get_new_mentions_result E w :
  fst (get_new_mentions E w) = Ret (List.filter is_reply (raw_batch E w))
  /\ last_mention_id (snd (get_new_mentions E w))
     = match raw_batch E w with
       | [] => last_mention_id w
       | t :: ts => Some (max_id t ts)
       end.
Proof.
  unfold get_new_mentions, get_new_mentions_body, raw_batch. unfold_monad.
  destruct (client_get_me E (clock w)) as [me|e];
    cbn [tick log clock last_mention_id fst snd]; [|done].
  destruct (client_get_users_mentions E (S (clock w)) (user_id me) 5
              (last_mention_id w)) as [response|e];
    cbn [tick log clock last_mention_id fst snd]; [|done].
  destruct (data response) as [ [ | t ts] | ];
    cbn [default tick log clock last_mention_id fst snd]; [done| |done].
  rewrite replies_only_filter. done.
Qed.

Lemma raw_batch_above E w c :
  api_honours_since E -> last_mention_id w = Some c ->
  Forall (fun u => c < tweet_id u) (raw_batch E w).
Proof.
  intros Hapi Hc. unfold raw_batch.
  destruct (client_get_me E (clock w)) as [me|e]; [|constructor].
  rewrite Hc.
  destruct (client_get_users_mentions E (S (clock w)) (user_id me) 5 (Some c))
    as [response|e] eqn:Hr; [|constructor].
  destruct (data response) as [batch|] eqn:Hd; [|constructor].
  exact (Hapi _ _ _ _ _ _ Hr Hd).
Qed.

Lemma filter_Forall {A} (P : A -> Prop) f (l : list A) :
  Forall P l -> Forall P (List.filter f l).
Proof.
  rewrite !List.Forall_forall. intros H x Hx.
  apply filter_In in Hx as [Hx _]. by apply H.
Qed.

Lemma later_polls_above E :
  api_honours_since E ->
  forall n w c, last_mention_id w = Some c ->
    Forall (fun u => c < tweet_id u) (poll_results E n w).
Proof.
  intros Hapi. induction n as [|n IH]; intros w c Hc; [constructor|].
  cbn [poll_results].
  pose proof (get_new_mentions_result E w) as [Hr Hcur].
  pose proof (raw_batch_above E w c Hapi Hc) as Habove.
  destruct (get_new_mentions E w) as [r w'].
  cbn [fst snd] in Hr, Hcur. subst r.
  apply Forall_app. split; [by apply filter_Forall|].
  destruct (raw_batch E w) as [|t ts].
  - apply IH. by rewrite Hcur.
  - eapply Forall_impl; [apply (IH w' (max_id t ts) Hcur)|].
    intros u Hu. cbn beta in *.
    destruct (max_id_is_maximum t ts) as [Hmax _].
    inversion Habove; subst. inversion Hmax; subst. lia.
Qed.

Lemma timeline_env_honours timeline llm :
  api_honours_since (timeline_env timeline llm).
Proof.
  intros t uid mr c response batch Hr Hd. simpl in Hr.
  injection Hr as <-. unfold mentions_since in Hd.
  assert (Forall (fun u => c < tweet_id u)
            (take (Z.to_nat mr)
               (List.filter (fun u => c <? tweet_id u) timeline))) as Hall.
  { apply Forall_take. rewrite List.Forall_forall. intros u Hu.
    apply filter_In in Hu as [_ Hu]. lia. }
  destruct (take _ _); simpl in Hd; [discriminate|].
  by injection Hd as <-.
Qed.

(** C1.  When the raw batch of a poll is not empty, [get_new_mentions]
    returns its replies and sets [last_mention_id] to the largest identifier
    of the raw batch, whether or not any mention passes the reply filter.
    With an API that returns only mentions above [since_id], no later poll
    returns a mention at or below that identifier. *)
Theorem get_new_mentions_advances_cursor E w t ts :
  raw_batch E w = t :: ts ->
  fst (get_new_mentions E w) = Ret (List.filter is_reply (t :: ts))
  /\ last_mention_id (snd (get_new_mentions E w)) = Some (max_id t ts)
  /\ Forall (fun u => tweet_id u <= max_id t ts) (t :: ts)
  /\ (exists u, In u (t :: ts) /\ tweet_id u = max_id t ts)
  /\ (api_honours_since E ->
      forall n,
        Forall (fun u => max_id t ts < tweet_id u)
          (poll_results E n (snd (get_new_mentions E w)))).
Proof.
  intros Hraw.
  pose proof (get_new_mentions_result E w) as [Hr Hcur].
  rewrite Hraw in Hr, Hcur.
  destruct (max_id_is_maximum t ts) as [Hmax Hin].
  repeat split; try assumption.
  intros Hapi n. by apply later_polls_above.
Qed.

(** The scenario of the specification: the raw batch is 109, 108, 107 and
    only 107 is a reply.  The poll returns 107 alone and the cursor is
    109; 108 and 109 are never returned later. *)
Lemma cursor_109_scenario :
  let E := timeline_env timeline_109 (fun _ => Ret VNone) in
  let after := snd (get_new_mentions E initial_world) in
  api_honours_since E
  /\ raw_batch E initial_world = timeline_109
  /\ map tweet_id (polled E initial_world) = [107]
  /\ last_mention_id after = Some 109
  /\ forall n, Forall (fun u => 109 < tweet_id u) (poll_results E n after).
Proof.
  intros E after.
  destruct (get_new_mentions_advances_cursor E initial_world
              (tweet 109 "@bot hello" None)
              (tl timeline_109) eq_refl)
    as (Hr & Hcur & _ & _ & Hlater).
  split; [apply timeline_env_honours|]. split; [reflexivity|].
  split; [|split].
  - unfold polled. rewrite Hr. reflexivity.
  - exact Hcur.
  - exact (Hlater (timeline_env_honours _ _)).
Defined.

(** C6, as stated: the mentions come back in ascending order of identifier.
    [get_new_mentions] does not sort: two replies that the API lists
    newest first are returned newest first. *)
Lemma replies_returned_newest_first :
  ~ (forall E w l,
       fst (get_new_mentions E w) = Ret l ->
       ascending (map tweet_id l) = true
       /\ Forall (fun u => is_reply u = true) l
       /\ match last_mention_id w with
          | Some c => Forall (fun u => c < tweet_id u) l
          | None => True
          end).
Proof.
  intros H.
  destruct (H (timeline_env timeline_replies (fun _ => Ret VNone))
              initial_world timeline_replies eq_refl) as [Hasc _].
  vm_compute in Hasc. discriminate.
Qed.

(** C6, amended.  A poll never fails; what it returns is the raw batch
    with the mentions that are not replies left out, in the order of the
    raw batch (the order the API gives, which the code does not change).
    It holds replies only, and, the API returning only mentions above
    [since_id], only identifiers above the cursor the call started with. *)
Theorem get_new_mentions_replies_in_batch_order E w :
  fst (get_new_mentions E w) = Ret (List.filter is_reply (raw_batch E w))
  /\ sublist (polled E w) (raw_batch E w)
  /\ Forall (fun u => is_reply u = true) (polled E w)
  /\ (api_honours_since E ->
      match last_mention_id w with
      | Some c => Forall (fun u => c < tweet_id u) (polled E w)
      | None => True
      end).
Proof.
  pose proof (get_new_mentions_result E w) as [Hr _].
  unfold polled. rewrite Hr. split; [reflexivity|].
  split; [|split].
  - clear Hr. induction (raw_batch E w) as [|u l IH]; simpl; [constructor|].
    destruct (is_reply u); by constructor.
  - rewrite List.Forall_forall. intros u Hu.
    by apply filter_In in Hu as [_ Hu].
  - intros Hapi. destruct (last_mention_id w) as [c|] eqn:Hc; [|done].
    apply filter_Forall. by apply raw_batch_above.
Qed.

Lemma replies_in_batch_order_scenario :
  let E := timeline_env timeline_replies (fun _ => Ret VNone) in
  let w := snd (get_new_mentions E initial_world) in
  api_honours_since E
  /\ map tweet_id (polled E initial_world) = [109; 107]
  /\ sublist (polled E initial_world) (raw_batch E initial_world)
  /\ Forall (fun u => is_reply u = true) (polled E initial_world)
  /\ last_mention_id w = Some 109
  /\ Forall (fun u => 109 < tweet_id u) (polled E w).
Proof.
  intros E w.
  destruct (get_new_mentions_replies_in_batch_order E initial_world)
    as (Hr & Hsub & Hreplies & _).
  destruct (get_new_mentions_replies_in_batch_order E w)
    as (_ & _ & _ & Habove).
  split; [apply timeline_env_honours|].
  split; [unfold polled; rewrite Hr; reflexivity|].
  split; [exact Hsub|]. split; [exact Hreplies|].
  split; [reflexivity|].
  exact (Habove (timeline_env_honours _ _)).
Defined.

(** ** The loop of [run] *)

Lemma guarded_outcome E body mention w :
  guarded E body mention w
  = match body mention w with
    | (Ret _, w') => (Ret tt, w')
    | (Raise e, w') =>
        (Ret tt,
         log (EvPrint (str "Error processing mention "
                         ++ str_of_Z (tweet_id mention) ++ str ": "
                         ++ str_exn E e)) w')
    end.
Proof.
  unfold guarded. unfold_monad.
  destruct (body mention w) as [[[]|e] w']; reflexivity.
Qed.

Lemma guarded_total E body mention w :
  fst (guarded E body mention w) = Ret tt.
Proof.
  rewrite guarded_outcome. by destruct (body mention w) as [[[]|e] w'].
Qed.

Lemma for_each_guarded E body mentions : forall w,
  for_each mentions (guarded E body) w
  = (Ret tt,
     fold_left (fun w' mention => snd (guarded E body mention w')) mentions w).
Proof.
  induction mentions as [|m ms IH]; intros w; [reflexivity|].
  cbn [for_each fold_left]. unfold mbind, M_bind, bind.
  pose proof (guarded_total E body m w) as Hm.
  destruct (guarded E body m w) as [r w']. cbn [fst snd] in *. subst r.
  apply IH.
Qed.

Lemma run_iteration_with_round E body w :
  run_iteration_with E body w = (Ret tt, after_round E body w).
Proof.
  unfold run_iteration_with, after_round, polled.
  destruct (get_new_mentions_total E w) as [l Hl].
  unfold try_except at 1. unfold mbind, M_bind, bind.
  destruct (get_new_mentions E w) as [r w']. cbn [fst snd] in *. subst r.
  rewrite for_each_guarded. reflexivity.
Qed.

Lemma run_loop_with_rounds E body n : forall w,
  run_loop_with E body n w = (Ret tt, after_rounds E body n w).
Proof.
  induction n as [|n IH]; intros w; [reflexivity|].
  cbn [run_loop_with after_rounds]. unfold mbind, M_bind, bind.
  rewrite run_iteration_with_round. apply IH.
Qed.

Lemma after_failed_poll E body w :
  match fst (get_new_mentions_body E w) with
  | Raise e =>
      after_round E body w
      = log (EvSleep 60)
          (log (EvPrint (str "Error getting mentions: " ++ str_exn E e))
             (snd (get_new_mentions_body E w)))
  | Ret _ => True
  end.
Proof.
  unfold after_round, polled, get_new_mentions. unfold_monad.
  destruct (get_new_mentions_body E w) as [[l|e] w']; reflexivity || exact I.
Qed.

(** C8.  No round of the loop lets an exception out, so the loop goes on
    for any number of rounds.  In a round, every polled mention is worked
    on under its own guard, in order: a failure of the work on a mention
    is logged and the next mention follows.  A round ends with a pause of
    60 seconds, after which the next round polls again; this holds also
    when the poll fails, in which case the round is the failed call, the
    log line and the pause.  (The work per mention is a parameter: the
    statement holds for the one [run] has and for any other.) *)
Theorem run_loop_never_stops_on_error E body n w :
  run_loop_with E body n w = (Ret tt, after_rounds E body n w)
  /\ run_loop_with E body (S n) w
     = run_loop_with E body n (snd (run_iteration_with E body w))
  /\ run_iteration_with E body w
     = (Ret tt,
        log (EvSleep 60)
          (fold_left (fun w' mention => snd (guarded E body mention w'))
             (polled E w) (snd (get_new_mentions E w))))
  /\ (forall mention w',
        guarded E body mention w'
        = match body mention w' with
          | (Ret _, w'') => (Ret tt, w'')
          | (Raise e, w'') =>
              (Ret tt,
               log (EvPrint (str "Error processing mention "
                               ++ str_of_Z (tweet_id mention) ++ str ": "
                               ++ str_exn E e)) w'')
          end)
  /\ match fst (get_new_mentions_body E w) with
     | Raise e =>
         snd (run_iteration_with E body w)
         = log (EvSleep 60)
             (log (EvPrint (str "Error getting mentions: " ++ str_exn E e))
                (snd (get_new_mentions_body E w)))
     | Ret _ => True
     end.
Proof.
  split; [apply run_loop_with_rounds|]. split.
  { cbn [run_loop_with]. unfold mbind, M_bind, bind.
    by rewrite run_iteration_with_round. }
  split; [apply run_iteration_with_round|].
  split; [intros; apply guarded_outcome|].
  rewrite run_iteration_with_round. apply after_failed_poll.
Qed.

Lemma process_mention_logs mention w :
  process_mention mention w
  = (Ret tt,
     {| last_mention_id := last_mention_id w; clock := clock w;
        trace := trace w ++ mention_lines mention; files := files w |}).
Proof.
  unfold process_mention, mention_lines. unfold_monad. unfold log.
  destruct (findall_url (tweet_text mention));
    cbn [last_mention_id clock trace files]; by rewrite <- app_assoc.
Qed.

Lemma mentions_logged E mentions : forall w,
  fold_left (fun w' mention => snd (guarded E process_mention mention w'))
    mentions w
  = {| last_mention_id := last_mention_id w; clock := clock w;
       trace := trace w ++ concat (map mention_lines mentions);
       files := files w |}.
Proof.
  induction mentions as [|m ms IH]; intros w.
  - destruct w. simpl. by rewrite app_nil_r.
  - cbn [fold_left map concat]. rewrite guarded_outcome, process_mention_logs.
    cbn [snd]. rewrite IH. cbn [last_mention_id clock trace files].
    by rewrite <- app_assoc.
Qed.

(** C3, as stated: a polled mention with a URL goes through fetching,
    transcription, summarising and formatting, in this order.  The loop
    calls none of these: for mention 107 of the scenario above, whose text
    holds a URL, the trace of the round has no such call. *)
Lemma mention_with_url_is_only_logged :
  ~ (forall E w mention url rest,
       In mention (polled E w) ->
       findall_url (tweet_text mention) = url :: rest ->
       stages_in_order url [Fetch; Transcribe; Summarize; Format]
         (trace (snd (run_iteration E w))) = true).
Proof.
  intros H.
  specialize (H (timeline_env timeline_109 (fun _ => Ret VNone)) initial_world
                (tweet 107
                   "@bot transcribe https://video.example/watch?v=abc please"
                   (reply_to 100))
                (str "https://video.example/watch?v=abc") []).
  assert (false = true) as Hf; [|discriminate].
  etransitivity; [|apply H].
  - vm_compute. reflexivity.
  - vm_compute. left. reflexivity.
  - vm_compute. reflexivity.
Qed.

(** C3, amended.  For every polled mention the loop logs the mention and
    then either the first URL of its text or that it has none, and does
    nothing else: after the poll, the round makes no call to any service
    (the call counter stands still), writes no file and leaves the cursor
    alone; its trace is the two lines of each mention, in order, and the
    pause.  Fetching, transcription, summarising, formatting and the reply
    are not part of the loop. *)
Theorem run_iteration_logs_urls_only E w :
  run_iteration E w
  = (Ret tt,
     {| last_mention_id := last_mention_id (snd (get_new_mentions E w));
        clock := clock (snd (get_new_mentions E w));
        trace := trace (snd (get_new_mentions E w))
                 ++ concat (map mention_lines (polled E w))
                 ++ [EvSleep 60];
        files := files (snd (get_new_mentions E w)) |}).
Proof.
  unfold run_iteration. rewrite run_iteration_with_round.
  unfold after_round. rewrite mentions_logged.
  unfold log. cbn [last_mention_id clock trace files].
  by rewrite <- app_assoc.
Qed.

(** * Further properties *)

#[local] Arguments N.leb : simpl never.

(** ** The URLs found in a mention *)

Lemma startswith_app p : forall s,
  startswith p s = true -> s = p ++ drop (length p) s.
Proof.
  induction p as [|a p IH]; intros s H; [reflexivity|].
  destruct s as [|b s]; [discriminate|]. simpl in H.
  apply andb_true_iff in H as [Hab Hp]. apply N.eqb_eq in Hab as ->.
  simpl. f_equal. by apply IH.
Qed.

Lemma url_char_spec c :
  url_char c = true <-> (c = 33 \/ 36 <= c <= 95 \/ 97 <= c <= 122)%N.
Proof.
  unfold url_char, is_alpha, is_digit, in_range.
  change (one_of "@.&+" c)
    with ((c =? 64) || ((c =? 46) || ((c =? 38) || ((c =? 43) || false))))%N.
  change (one_of "!*()," c)
    with ((c =? 33) || ((c =? 42) || ((c =? 40) || ((c =? 41)
            || ((c =? 44) || false)))))%N.
  rewrite !orb_true_iff, !andb_true_iff, !N.leb_le, !N.eqb_eq. lia.
Qed.

(** The alternative of the pattern for percent escapes never applies: the
    percent sign itself belongs to the range [$-_]. *)
Lemma url_step_one s n :
  url_step s = Some n ->
  n = 1%nat /\ exists c rest, s = c :: rest /\ url_char c = true.
Proof.
  destruct s as [|c rest]; [discriminate|]. unfold url_step.
  destruct (url_char c) eqn:Hc; [intros [= <-]; eauto|].
  destruct rest as [|h1 [|h2 rest]]; try discriminate.
  destruct (N.eqb_spec c 37) as [->|]; [|discriminate].
  vm_compute in Hc. discriminate.
Qed.

Lemma url_step_none s :
  url_step s = None ->
  match s with [] => True | c :: _ => url_char c = false end.
Proof.
  destruct s as [|c rest]; [done|]. unfold url_step.
  by destruct (url_char c).
Qed.

Lemma url_body_run fuel : forall s,
  (length s <= fuel)%nat ->
  exists body rest,
    s = body ++ rest /\ length body = url_body fuel s
    /\ Forall (fun c => url_char c = true) body
    /\ match rest with [] => True | c :: _ => url_char c = false end.
Proof.
  induction fuel as [|fuel IH]; intros s Hlen.
  - destruct s; [|simpl in Hlen; lia]. exists [], []. by repeat split.
  - cbn [url_body]. destruct (url_step s) as [n|] eqn:Hstep.
    + apply url_step_one in Hstep as (-> & c & r & -> & Hc).
      destruct (IH r) as (body & rest & -> & Hb & Hall & Hrest);
        [simpl in Hlen; lia|].
      exists (c :: body), rest. cbn [drop]. rewrite drop_0. simpl.
      repeat split; [by rewrite Hb | by constructor | done].
    + exists [], s. repeat split; [constructor|]. by apply url_step_none.
Qed.

Lemma match_tail_shape s k m :
  match_tail s k = Some m ->
  exists body rest,
    s = take k s ++ str "://" ++ body ++ rest
    /\ m = take k s ++ str "://" ++ body
    /\ body <> []
    /\ Forall (fun c => url_char c = true) body
    /\ match rest with [] => True | c :: _ => url_char c = false end.
Proof.
  unfold match_tail.
  destruct (startswith (str "://") (drop k s)) eqn:Hstart; [|done].
  apply startswith_app in Hstart.
  change (length (str "://")) with 3%nat in Hstart.
  destruct (url_body_run (length (drop k s)) (drop 3 (drop k s)))
    as (body & rest & Hsplit & Hlen & Hall & Hrest).
  { rewrite !length_drop. lia. }
  rewrite Hsplit in Hstart.
  destruct (url_body _ _) as [|n] eqn:Hn; [done|]. intros [= <-].
  assert (s = take k s ++ str "://" ++ body ++ rest) as Hs.
  { rewrite <- Hstart. symmetry. apply take_drop. }
  assert (length (take k s) = k) as Hk.
  { apply length_take_le. destruct (Nat.le_gt_cases k (length s)); [done|].
    rewrite drop_ge in Hstart by lia. discriminate. }
  exists body, rest. split; [exact Hs|]. split.
  - rewrite Hs at 1. rewrite take_app, Hk.
    replace (k + 3 + S n - k)%nat with (3 + S n)%nat by lia.
    rewrite take_ge by (rewrite Hk; lia). f_equal.
    change (take (3 + S n) (str "://" ++ body ++ rest))
      with (str "://" ++ take (S n) (body ++ rest)).
    f_equal. by rewrite <- Hlen, take_app_length.
  - split; [|done]. intros ->. discriminate.
Qed.

Lemma match_url_shape s m :
  match_url s = Some m ->
  exists scheme body rest,
    s = scheme ++ body ++ rest
    /\ m = scheme ++ body
    /\ (scheme = str "http://" \/ scheme = str "https://")
    /\ body <> []
    /\ Forall (fun c => url_char c = true) body
    /\ match rest with [] => True | c :: _ => url_char c = false end.
Proof.
  unfold match_url.
  destruct (startswith (str "http") s) eqn:Hhttp; [|done].
  apply startswith_app in Hhttp. change (length (str "http")) with 4%nat in Hhttp.
  assert (forall k scheme, take k s ++ str "://" = scheme ->
            (scheme = str "http://" \/ scheme = str "https://") ->
            match_tail s k = Some m ->
            exists scheme body rest,
              s = scheme ++ body ++ rest /\ m = scheme ++ body
              /\ (scheme = str "http://" \/ scheme = str "https://")
              /\ body <> [] /\ Forall (fun c => url_char c = true) body
              /\ match rest with [] => True | c :: _ => url_char c = false end)
    as Htail.
  { intros k scheme Hscheme Hor Hm.
    apply match_tail_shape in Hm as (body & rest & Hs & Hmm & Hb & Hall & Hr).
    exists scheme, body, rest. subst scheme.
    rewrite <- !app_assoc. by repeat split. }
  assert (take 4 s = str "http") as H4.
  { rewrite Hhttp. reflexivity. }
  assert (take 4 s ++ str "://" = str "http://") as H4' by (by rewrite H4).
  pose proof (Htail 4%nat (str "http://") H4' (or_introl eq_refl)) as Hfour.
  destruct (drop 4 s) as [|c r] eqn:Hdrop; [exact Hfour|].
  destruct (N.eqb_spec c 115) as [->|Hne].
  - destruct (match_tail s 5) as [m'|] eqn:H5; [|exact Hfour].
    intros [= <-]. revert H5.
    apply (Htail 5%nat (str "https://")); [|by right].
    rewrite Hhttp. reflexivity.
  - destruct c as [|p]; [exact Hfour|].
    repeat (destruct p as [p|p|]; try exact Hfour). by destruct Hne.
Qed.

Lemma findall_scan_matches s : forall skip,
  Forall (fun m => exists pre post,
            s = pre ++ m ++ post /\ match_url (m ++ post) = Some m)
    (findall_scan skip s).
Proof.
  induction s as [|c s IH]; intros skip; [constructor|].
  assert (forall k, Forall (fun m => exists pre post,
                              c :: s = pre ++ m ++ post
                              /\ match_url (m ++ post) = Some m)
                      (findall_scan k s)) as Hrest.
  { intros k. eapply Forall_impl; [apply IH|].
    intros m (pre & post & -> & Hm). by exists (c :: pre), post. }
  cbn [findall_scan]. destruct skip as [|k]; [|apply Hrest].
  destruct (match_url (c :: s)) as [m|] eqn:Hm; [|apply Hrest].
  constructor; [|apply Hrest].
  destruct (match_url_prefix _ _ Hm) as [post Hpost].
  exists [], post. split; [exact Hpost|]. by rewrite <- Hpost.
Qed.

(** X1.  Every URL [run] finds in a text is [http://] or [https://] followed by
    a run of characters of the pattern's class that is not empty and goes
    as far as it can: the character after the URL, if there is one, is
    outside the class.  The class is ['!'], the code points from ['$'] to
    ['_'] and the lower-case letters; a URL therefore ends before a space,
    a double quote, ['#'] or ['~'], and takes in a comma, a full stop or a
    closing bracket that follows it. *)
Theorem extracted_urls_shape text :
  Forall (fun url => exists pre scheme body post,
            text = pre ++ scheme ++ body ++ post
            /\ url = scheme ++ body
            /\ (scheme = str "http://" \/ scheme = str "https://")
            /\ body <> []
            /\ Forall (fun c => c = 33 \/ 36 <= c <= 95 \/ 97 <= c <= 122)%N body
            /\ match post with
               | [] => True
               | c :: _ => ~ (c = 33 \/ 36 <= c <= 95 \/ 97 <= c <= 122)%N
               end)
    (findall_url text).
Proof.
  eapply Forall_impl; [apply findall_scan_matches|].
  intros url (pre & post & -> & Hm). cbn beta.
  apply match_url_shape in Hm
    as (scheme & body & rest & Hs & -> & Hor & Hb & Hall & Hrest).
  rewrite <- app_assoc in Hs. apply app_inv_head in Hs.
  apply app_inv_head in Hs as ->.
  exists pre, scheme, body, rest. rewrite <- !app_assoc.
  repeat split; try done.
  - eapply Forall_impl; [exact Hall|]. intros c. apply url_char_spec.
  - destruct rest as [|c rest]; [done|].
    rewrite <- url_char_spec. by rewrite Hrest.
Qed.

Lemma match_url_nil : match_url [] = None.
Proof. reflexivity. Qed.

(** X2.  The URL [run] works on, [urls[0]], is the leftmost match of the
    pattern in the text: no match starts before it.  A text has no URL
    exactly when the pattern matches at none of its positions. *)
Theorem first_url_is_leftmost text :
  match findall_url text with
  | [] => forall pre post, text = pre ++ post -> match_url post = None
  | url :: _ =>
      exists pre post,
        text = pre ++ url ++ post
        /\ match_url (url ++ post) = Some url
        /\ forall pre1 post1,
             pre = pre1 ++ post1 -> post1 <> [] ->
             match_url (post1 ++ url ++ post) = None
  end.
Proof.
  unfold findall_url. induction text as [|c s IH].
  - intros pre post H. symmetry in H. apply app_eq_nil in H as [_ ->].
    reflexivity.
  - cbn [findall_scan]. destruct (match_url (c :: s)) as [m|] eqn:Hm.
    + destruct (match_url_prefix _ _ Hm) as [post Hpost].
      exists [], post. split; [exact Hpost|]. split; [by rewrite <- Hpost|].
      intros pre1 post1 H. symmetry in H. apply app_eq_nil in H as [_ ->]. done.
    + destruct (findall_scan 0 s) as [|url rest].
      * intros [|c' pre] post H.
        -- simpl in H. by subst post.
        -- injection H as -> H. by apply (IH pre post).
      * destruct IH as (pre & post & -> & Hurl & Hbefore).
        exists (c :: pre), post. split; [reflexivity|]. split; [exact Hurl|].
        intros [|c' pre1] post1 H Hne.
        -- simpl in H. subst post1. exact Hm.
        -- injection H as -> H. exact (Hbefore pre1 post1 H Hne).
Qed.

Lemma first_url_example :
  let text := str "see http:// and https://a.b/c, then http://d" in
  findall_url text = [str "https://a.b/c,"; str "http://d"]
  /\ exists pre post,
       text = pre ++ str "https://a.b/c," ++ post
       /\ match_url (str "https://a.b/c," ++ post) = Some (str "https://a.b/c,")
       /\ forall pre1 post1,
            pre = pre1 ++ post1 -> post1 <> [] ->
            match_url (post1 ++ str "https://a.b/c," ++ post) = None.
Proof.
  intros text. split; [reflexivity|].
  exact (first_url_is_leftmost text).
Defined.

(** ** More on [create_summary] *)

Lemma chunk_lookup transcript k chunk :
  chunks transcript !! k = Some chunk ->
  (k < (length transcript + 1023) / 1024)%nat
  /\ chunk = take 1024 (drop (k * 1024) transcript).
Proof.
  rewrite chunks_by_index, list_lookup_fmap.
  destruct (seq 0 _ !! k) as [j|] eqn:Hj; [|discriminate].
  apply lookup_seq in Hj as [-> Hk]. intros [= <-].
  split; [exact Hk|]. unfold slice. f_equal. lia.
Qed.

(** X3.  No chunk sent to the model is empty or longer than 1024 characters,
    and every chunk but the last has exactly 1024. *)
Theorem chunks_bounds transcript k chunk :
  chunks transcript !! k = Some chunk ->
  (0 < length chunk <= 1024)%nat
  /\ ((S k < length (chunks transcript))%nat -> length chunk = 1024%nat).
Proof.
  intros Hk.
  assert (length (chunks transcript) = ((length transcript + 1023) / 1024)%nat)
    as Hn by (by rewrite chunks_by_index, length_map, length_seq).
  apply chunk_lookup in Hk as [Hlt ->].
  rewrite length_take, length_drop, Hn.
  pose proof (Nat.div_mod_eq (length transcript + 1023) 1024).
  pose proof (Nat.mod_upper_bound (length transcript + 1023) 1024).
  split; lia.
Qed.

Lemma chunks_bounds_example :
  let transcript := repeat 97%N 2049 in
  chunks transcript !! 0%nat = Some (repeat 97%N 1024)
  /\ chunks transcript !! 2%nat = Some [97%N]
  /\ length (repeat 97%N 1024) = 1024%nat.
Proof.
  intros transcript.
  assert (chunks transcript !! 0%nat = Some (repeat 97%N 1024)) as H0
    by (vm_compute; reflexivity).
  split; [exact H0|]. split; [vm_compute; reflexivity|].
  apply (chunks_bounds transcript 0 _ H0). vm_compute. lia.
Defined.

Lemma summarize_chunks_abort E cs : forall k chunk summaries w (out : nat -> pystr),
  cs !! k = Some chunk ->
  (forall j c, (j < k)%nat -> cs !! j = Some c ->
     replicate_run E (clock w + j) llama_model (llama_input c)
     = Ret (VStr (out j))) ->
  match replicate_run E (clock w + k) llama_model (llama_input chunk) with
  | Ret (VStr _) => False
  | _ => True
  end ->
  exists e w',
    summarize_chunks E cs summaries w = (Raise e, w')
    /\ trace w' = trace w
                  ++ map (fun c => EvReplicateRun llama_model (llama_input c))
                         (take (S k) cs)
    /\ files w' = files w /\ last_mention_id w' = last_mention_id w.
Proof.
  induction cs as [|c cs IH]; intros k chunk summaries w out Hk Hbefore Hfail;
    [discriminate|].
  cbn [summarize_chunks]. unfold_monad. destruct k as [|k].
  - injection Hk as ->. rewrite Nat.add_0_r in Hfail.
    destruct (replicate_run E (clock w) llama_model (llama_input chunk))
      as [v|e]; [|by eauto 10].
    destruct v; try done; cbn [py_strip]; eauto 10.
  - assert (replicate_run E (clock w) llama_model (llama_input c)
            = Ret (VStr (out 0%nat))) as ->.
    { rewrite <- (Nat.add_0_r (clock w)). apply Hbefore; [lia | done]. }
    cbn [py_strip].
    destruct (IH k chunk (summaries ++ [add_bullet (strip (out 0%nat))])
                (tick (EvReplicateRun llama_model (llama_input c)) w)
                (fun j => out (S j)) Hk)
      as (e & w' & -> & Htr & Hfiles & Hcur).
    + intros j c' Hj Hc'. cbn [tick clock].
      replace (S (clock w) + j)%nat with (clock w + S j)%nat by lia.
      apply Hbefore; [lia | done].
    + cbn [tick clock].
      by replace (S (clock w) + k)%nat with (clock w + S k)%nat by lia.
    + exists e, w'. split; [done|]. split; [|done].
      rewrite Htr. cbn [tick trace]. by rewrite <- app_assoc.
Qed.

(** X4.  When the call for a chunk raises, or returns something that is not a
    text, after the calls for the chunks before it returned texts,
    [create_summary] returns [None]: the chunks after it are never sent,
    the summaries already obtained are dropped, and one line is logged. *)
Theorem create_summary_aborts E transcript w k chunk (out : nat -> pystr) :
  chunks transcript !! k = Some chunk ->
  (forall j c, (j < k)%nat -> chunks transcript !! j = Some c ->
     replicate_run E (clock w + j) llama_model (llama_input c)
     = Ret (VStr (out j))) ->
  match replicate_run E (clock w + k) llama_model (llama_input chunk) with
  | Ret (VStr _) => False
  | _ => True
  end ->
  fst (create_summary E transcript w) = Ret None
  /\ exists line,
       trace (snd (create_summary E transcript w))
       = trace w
         ++ map (fun c => EvReplicateRun llama_model (llama_input c))
                (take (S k) (chunks transcript))
         ++ [EvPrint line].
Proof.
  intros Hk Hbefore Hfail.
  destruct (summarize_chunks_abort E _ k chunk [] w out Hk Hbefore Hfail)
    as (e & w' & Hrun & Htr & _).
  unfold create_summary, create_summary_body. unfold_monad.
  rewrite Hrun. cbn [fst snd log trace]. split; [done|].
  eexists. rewrite Htr. by rewrite <- app_assoc.
Qed.

(** The second of three calls fails: two calls are made and no summary is
    returned. *)
Lemma create_summary_aborts_example :
  let E := timeline_env []
             (fun t => if (t <? 1)%nat then Ret (VStr (str "point"))
                       else Raise (LibraryError (str "ReplicateError")
                                     (str "rate limit"))) in
  let transcript := repeat 97%N 2050 in
  fst (create_summary E transcript initial_world) = Ret None
  /\ exists line,
       trace (snd (create_summary E transcript initial_world))
       = map (fun c => EvReplicateRun llama_model (llama_input c))
             (take 2 (chunks transcript))
         ++ [EvPrint line].
Proof.
  intros E transcript.
  apply (create_summary_aborts E transcript initial_world 1
           (repeat 97%N 1024) (fun _ => str "point")).
  - vm_compute. reflexivity.
  - intros j c Hj _. destruct j; [reflexivity | lia].
  - exact I.
Defined.

(** ** Downloading and transcribing *)

(** X6.  A path returned by [download_video_audio] is the file the audio was
    downloaded to: the four calls (page, audio stream, temporary directory,
    download) were made in this order and succeeded, the page had an audio
    stream, and the path is [temp_audio.mp3] in the new directory. *)
Theorem download_returns_downloaded_path E video_url w path :
  fst (download_video_audio E video_url w) = Ret (Some path) ->
  exists yt stream temp_dir,
    pytube_YouTube E (clock w) video_url = Ret yt
    /\ pytube_first_audio E (1 + clock w) yt = Ret (Some stream)
    /\ tempfile_mkdtemp E (2 + clock w) = Ret temp_dir
    /\ path = path_join temp_dir (str "temp_audio.mp3")
    /\ pytube_download E (3 + clock w) stream path = Ret tt
    /\ trace (snd (download_video_audio E video_url w))
       = trace w ++ [EvYouTube video_url; EvFirstAudioStream yt; EvMkdtemp;
                     EvDownload stream path].
Proof.
  unfold download_video_audio, download_video_audio_body. unfold_monad.
  destruct (pytube_YouTube E (clock w) video_url) as [yt|e] eqn:Hyt;
    cbn [tick clock]; [|discriminate].
  destruct (pytube_first_audio E (S (clock w)) yt) as [[stream|]|e] eqn:Hs;
    cbn [tick clock].
  - destruct (tempfile_mkdtemp E (S (S (clock w)))) as [dir|e] eqn:Hd;
      cbn [tick clock]; [|discriminate].
    destruct (pytube_download E (S (S (S (clock w)))) stream
                (path_join dir (str "temp_audio.mp3"))) as [[]|e] eqn:Hdl;
      cbn [fst snd]; [|discriminate].
    intros [= <-]. exists yt, stream, dir.
    repeat split; try done.
    cbn [tick trace]. by rewrite <- !app_assoc.
  - destruct (tempfile_mkdtemp E (S (S (clock w)))); discriminate.
  - discriminate.
Qed.

Lemma download_example :
  let E := media_env (Some 5%N) (fun _ => Ret VNone) in
  fst (download_video_audio E (str "https://video.example/watch?v=abc")
         initial_world)
  = Ret (Some (str "/tmp/tmpabc/temp_audio.mp3"))
  /\ exists yt stream temp_dir,
       str "/tmp/tmpabc/temp_audio.mp3"
       = path_join temp_dir (str "temp_audio.mp3")
       /\ trace (snd (download_video_audio E
                        (str "https://video.example/watch?v=abc")
                        initial_world))
          = [EvYouTube (str "https://video.example/watch?v=abc");
             EvFirstAudioStream yt; EvMkdtemp;
             EvDownload stream (str "/tmp/tmpabc/temp_audio.mp3")].
Proof.
  intros E. split; [reflexivity|].
  destruct (download_returns_downloaded_path E
              (str "https://video.example/watch?v=abc") initial_world
              (str "/tmp/tmpabc/temp_audio.mp3") eq_refl)
    as (yt & stream & dir & _ & _ & _ & Hpath & _ & Htrace).
  by exists yt, stream, dir.
Defined.

(** X7.  When the page has no audio-only stream, [download_video_audio] returns
    [None] without downloading anything, but only after it has asked for a
    temporary directory, which it leaves behind. *)
Theorem download_without_audio_stream E video_url w yt :
  pytube_YouTube E (clock w) video_url = Ret yt ->
  pytube_first_audio E (1 + clock w) yt = Ret None ->
  fst (download_video_audio E video_url w) = Ret None
  /\ exists line,
       trace (snd (download_video_audio E video_url w))
       = trace w ++ [EvYouTube video_url; EvFirstAudioStream yt; EvMkdtemp;
                     EvPrint line].
Proof.
  intros Hyt Hs.
  unfold download_video_audio, download_video_audio_body. unfold_monad.
  rewrite Hyt. cbn [tick clock]. cbn [Nat.add] in Hs. rewrite Hs.
  cbn [tick clock].
  destruct (tempfile_mkdtemp E (S (S (clock w)))) as [dir|e];
    cbn [fst snd tick log trace]; (split; [done|]);
    eexists; by rewrite <- !app_assoc.
Qed.

Lemma download_without_audio_stream_example :
  let E := media_env None (fun _ => Ret VNone) in
  let url := str "https://video.example/watch?v=abc" in
  pytube_YouTube E 0 url = Ret 7%N
  /\ pytube_first_audio E 1 7%N = Ret None
  /\ fst (download_video_audio E url initial_world) = Ret None
  /\ exists line,
       trace (snd (download_video_audio E url initial_world))
       = [EvYouTube url; EvFirstAudioStream 7%N; EvMkdtemp; EvPrint line].
Proof.
  intros E url. split; [reflexivity|]. split; [reflexivity|].
  exact (download_without_audio_stream E url initial_world 7%N
           eq_refl eq_refl).
Defined.

(** X8.  When the audio file cannot be opened, [transcribe_video] returns [None]
    and the speech model is not called. *)
Theorem transcribe_unreadable_file E audio_path w e :
  builtin_open E (clock w) audio_path (str "rb") = Raise e ->
  transcribe_video E audio_path w
  = (Ret VNone,
     log (EvPrint (str "Error transcribing video: " ++ str_exn E e))
       (tick (EvOpen audio_path (str "rb")) w)).
Proof.
  intros Hopen. unfold transcribe_video, transcribe_video_body. unfold_monad.
  by rewrite Hopen.
Qed.

(** X9.  A transcript other than [None] is the ['text'] entry of the dictionary
    the speech model returned for the opened file. *)
Theorem transcribe_returns_text_entry E audio_path w v :
  fst (transcribe_video E audio_path w) = Ret v ->
  v <> VNone ->
  exists audio items,
    builtin_open E (clock w) audio_path (str "rb") = Ret audio
    /\ replicate_run E (1 + clock w) whisper_model (whisper_input audio)
       = Ret (VDict items)
    /\ dict_get (str "text") items = Some v
    /\ trace (snd (transcribe_video E audio_path w))
       = trace w ++ [EvOpen audio_path (str "rb");
                     EvReplicateRun whisper_model (whisper_input audio)].
Proof.
  unfold transcribe_video, transcribe_video_body. unfold_monad.
  destruct (builtin_open E (clock w) audio_path (str "rb")) as [audio|e] eqn:Ho;
    cbn [tick clock fst snd]; [|by intros [= <-]].
  destruct (replicate_run E (S (clock w)) whisper_model (whisper_input audio))
    as [output|e] eqn:Hr; cbn [fst snd]; [|by intros [= <-]].
  destruct output as [| | | | | | |items]; cbn [subscript fst snd];
    try (by intros [= <-]).
  destruct (dict_get (str "text") items) as [v'|] eqn:Hget; cbn [fst snd];
    [|by intros [= <-]].
  intros [= <-] _. exists audio, items. repeat split; try done.
  cbn [tick trace]. by rewrite <- app_assoc.
Qed.

Lemma transcribe_example :
  let E := media_env (Some 5%N)
             (fun _ => Ret (VDict [(str "text", VStr (str "hello world"))])) in
  fst (transcribe_video E (str "/tmp/tmpabc/temp_audio.mp3") initial_world)
  = Ret (VStr (str "hello world"))
  /\ exists audio items,
       dict_get (str "text") items = Some (VStr (str "hello world"))
       /\ trace (snd (transcribe_video E (str "/tmp/tmpabc/temp_audio.mp3")
                        initial_world))
          = [EvOpen (str "/tmp/tmpabc/temp_audio.mp3") (str "rb");
             EvReplicateRun whisper_model (whisper_input audio)].
Proof.
  intros E. split; [reflexivity|].
  destruct (transcribe_returns_text_entry E
              (str "/tmp/tmpabc/temp_audio.mp3") initial_world
              (VStr (str "hello world")) eq_refl)
    as (audio & items & _ & _ & Hget & Htrace); [discriminate|].
  by exists audio, items.
Defined.

Lemma transcribe_unreadable_example :
  let E := timeline_env [] (fun _ => Ret VNone) in
  let E' := {| str_exn := str_exn E;
               client_get_me := client_get_me E;
               client_get_users_mentions := client_get_users_mentions E;
               client_get_tweet := client_get_tweet E;
               pytube_YouTube := pytube_YouTube E;
               pytube_first_audio := pytube_first_audio E;
               tempfile_mkdtemp := tempfile_mkdtemp E;
               pytube_download := pytube_download E;
               builtin_open := fun _ _ _ =>
                 Raise (LibraryError (str "FileNotFoundError")
                          (str "No such file or directory"));
               replicate_run := replicate_run E;
               datetime_now_strftime := datetime_now_strftime E;
               file_write := file_write E;
               os_environ := os_environ E;
               markdown_markdown := markdown_markdown E;
               md5_hexdigest := md5_hexdigest E;
               format_field := format_field E |} in
  trace (snd (transcribe_video E' (str "/nowhere.mp3") initial_world))
  = [EvOpen (str "/nowhere.mp3") (str "rb");
     EvPrint (str "Error transcribing video: error")].
Proof.
  intros E E'.
  by rewrite (transcribe_unreadable_file E' (str "/nowhere.mp3") initial_world
                _ eq_refl).
Defined.

(** ** [extract_video_url] *)

Lemma first_video_spec media :
  match first_video media with
  | Some url =>
      exists before m after,
        media = before ++ m :: after
        /\ Forall (fun m' => media_type m' <> str "video") before
        /\ media_type m = str "video" /\ url = media_url m
  | None => Forall (fun m' => media_type m' <> str "video") media
  end.
Proof.
  induction media as [|m media IH]; [constructor|].
  cbn [first_video]. case_bool_decide as Hm.
  - exists [], m, media. by repeat split.
  - destruct (first_video media) as [url|].
    + destruct IH as (before & m' & after & -> & Hb & Hm' & ->).
      exists (m :: before), m', after. repeat split; try done.
      by constructor.
    + by constructor.
Qed.

(** X10.  [extract_video_url] calls no service and changes nothing; it returns
    the URL of the first attached medium of type ['video'] (which may itself
    be [None]), and [None] when the response has no ['media'] entry or no
    video among the media. *)
Theorem extract_video_url_first_video E tweet w :
  exists r,
    extract_video_url E tweet w = (Ret r, w)
    /\ match dict_get (str "media") (includes tweet) with
       | None => r = None
       | Some media =>
           (Forall (fun m => media_type m <> str "video") media /\ r = None)
           \/ exists before m after,
                media = before ++ m :: after
                /\ Forall (fun m' => media_type m' <> str "video") before
                /\ media_type m = str "video" /\ r = media_url m
       end.
Proof.
  unfold extract_video_url. unfold_monad.
  destruct (includes tweet) as [|entry entries] eqn:Hinc.
  { exists None. by split. }
  destruct (dict_get (str "media") (entry :: entries)) as [media|].
  - pose proof (first_video_spec media) as Hfirst.
    destruct (first_video media) as [url|].
    + exists url. split; [done|]. right.
      destruct Hfirst as (before & m & after & ? & ? & ? & ?).
      by exists before, m, after.
    + exists None. split; [done|]. by left.
  - exists None. by split.
Qed.

(** ** More on polling *)

Lemma is_reply_spec mention :
  is_reply mention = true
  <-> exists refs ref,
        referenced_tweets mention = Some refs /\ In ref refs
        /\ ref_type ref = str "replied_to".
Proof.
  unfold is_reply. destruct (referenced_tweets mention) as [[|r refs]|].
  - split; [done|]. by intros (? & ? & [= <-] & [] & _).
  - rewrite existsb_exists. split.
    + intros (ref & Hin & Href). apply bool_decide_eq_true in Href. eauto.
    + intros (refs' & ref & [= <-] & Hin & Href). exists ref.
      split; [done|]. by apply bool_decide_eq_true.
  - split; [done|]. by intros (? & ? & [=] & _).
Qed.

(** X11.  A poll returns exactly the mentions of the raw batch that carry a
    reference of type ["replied_to"]: a mention with no references, or with
    quotes and retweets only, is dropped, and no other mention is. *)
Theorem polled_iff_reply E w mention :
  In mention (polled E w)
  <-> In mention (raw_batch E w)
      /\ exists refs ref,
           referenced_tweets mention = Some refs /\ In ref refs
           /\ ref_type ref = str "replied_to".
Proof.
  unfold polled. destruct (get_new_mentions_result E w) as [-> _].
  by rewrite filter_In, is_reply_spec.
Qed.

(** X12.  When the raw batch is empty (the API found nothing, or a call failed)
    the poll returns no mention and leaves the cursor and the files as they
    were. *)
Theorem empty_poll_keeps_cursor E w :
  raw_batch E w = [] ->
  fst (get_new_mentions E w) = Ret []
  /\ last_mention_id (snd (get_new_mentions E w)) = last_mention_id w
  /\ files (snd (get_new_mentions E w)) = files w.
Proof.
  intros Hraw. destruct (get_new_mentions_result E w) as [Hr Hcur].
  rewrite Hraw in Hr, Hcur. split; [exact Hr|]. split; [exact Hcur|].
  unfold get_new_mentions. rewrite try_except_files.
  unfold get_new_mentions_body. unfold_monad.
  destruct (client_get_me E (clock w)); [|done]. cbn [tick clock].
  destruct (client_get_users_mentions _ _ _ _ _) as [response|]; [|done].
  by destruct (data response) as [ [|t ts] | ].
Qed.

Lemma empty_poll_example :
  let E := timeline_env timeline_109 (fun _ => Ret VNone) in
  let w := {| last_mention_id := Some 109; clock := 4; trace := [];
              files := ∅ |} in
  raw_batch E w = []
  /\ fst (get_new_mentions E w) = Ret []
  /\ last_mention_id (snd (get_new_mentions E w)) = Some 109.
Proof.
  intros E w. split; [reflexivity|].
  destruct (empty_poll_keeps_cursor E w eq_refl) as (Hr & Hcur & _).
  by split.
Defined.

Lemma poll_effects E w :
  files (snd (get_new_mentions E w)) = files w
  /\ (clock w <= clock (snd (get_new_mentions E w)) <= clock w + 2)%nat
  /\ exists evs,
       trace (snd (get_new_mentions E w)) = trace w ++ evs
       /\ Forall (fun ev => is_loop_event ev = true /\ is_pause ev = false) evs.
Proof.
  unfold get_new_mentions, get_new_mentions_body. unfold_monad.
  destruct (client_get_me E (clock w)) as [me|e];
    cbn [tick log clock trace files fst snd].
  - destruct (client_get_users_mentions _ _ _ _ _) as [response|e];
      cbn [tick log clock trace files fst snd].
    + destruct (data response) as [ [|t ts] | ];
        cbn [tick log clock trace files fst snd];
        (split; [done|]); (split; [lia|]); eexists;
        (split; [by rewrite <- app_assoc|]); by repeat constructor.
    + split; [done|]. split; [lia|]. eexists.
      split; [by rewrite <- !app_assoc|]. by repeat constructor.
  - split; [done|]. split; [lia|]. eexists.
    split; [by rewrite <- !app_assoc|]. by repeat constructor.
Qed.

Lemma after_round_logged E w :
  after_round E process_mention w
  = {| last_mention_id := last_mention_id (snd (get_new_mentions E w));
       clock := clock (snd (get_new_mentions E w));
       trace := trace (snd (get_new_mentions E w))
                ++ concat (map mention_lines (polled E w)) ++ [EvSleep 60];
       files := files (snd (get_new_mentions E w)) |}.
Proof.
  unfold after_round. rewrite mentions_logged. unfold log.
  cbn [last_mention_id clock trace files]. by rewrite <- app_assoc.
Qed.

Lemma mention_lines_events mentions :
  Forall (fun ev => is_loop_event ev = true /\ is_pause ev = false)
    (concat (map mention_lines mentions)).
Proof.
  induction mentions as [|m ms IH]; [constructor|].
  cbn [map concat]. apply Forall_app. split; [|exact IH].
  unfold mention_lines. by repeat constructor.
Qed.

Lemma after_rounds_effects E n : forall w,
  files (after_rounds E process_mention n w) = files w
  /\ (clock (after_rounds E process_mention n w) <= clock w + 2 * n)%nat
  /\ exists evs,
       trace (after_rounds E process_mention n w) = trace w ++ evs
       /\ Forall (fun ev => is_loop_event ev = true) evs
       /\ length (List.filter is_pause evs) = n.
Proof.
  induction n as [|n IH]; intros w.
  - cbn [after_rounds]. split; [done|]. split; [lia|].
    exists []. rewrite app_nil_r. by repeat split.
  - cbn [after_rounds].
    destruct (IH (after_round E process_mention w))
      as (Hfiles & Hclock & evs & Htrace & Hloop & Hpauses).
    assert (files (after_round E process_mention w)
            = files (snd (get_new_mentions E w))) as Hf1
      by (by rewrite after_round_logged).
    assert (clock (after_round E process_mention w)
            = clock (snd (get_new_mentions E w))) as Hc1
      by (by rewrite after_round_logged).
    assert (trace (after_round E process_mention w)
            = trace (snd (get_new_mentions E w))
              ++ concat (map mention_lines (polled E w)) ++ [EvSleep 60])
      as Ht1 by (by rewrite after_round_logged).
    rewrite Hf1 in Hfiles. rewrite Hc1 in Hclock. rewrite Ht1 in Htrace.
    destruct (poll_effects E w) as (Hf & Hc & pevs & Hp & Hpevs).
    split; [by rewrite Hfiles|]. split; [lia|].
    pose proof (mention_lines_events (polled E w)) as Hlines.
    exists (pevs ++ concat (map mention_lines (polled E w)) ++ [EvSleep 60]
              ++ evs).
    split; [rewrite Htrace, Hp; by rewrite <- !app_assoc|]. split.
    + repeat (apply Forall_app; split); try done.
      * eapply Forall_impl; [exact Hpevs|]. by intros ev [? _].
      * eapply Forall_impl; [exact Hlines|]. by intros ev [? _].
      * by repeat constructor.
    + rewrite !List.filter_app, !length_app.
      assert (forall l, Forall (fun ev => is_loop_event ev = true
                                          /\ is_pause ev = false) l ->
                        List.filter is_pause l = []) as Hnone.
      { induction 1 as [|ev l [_ Hev] _ IHl]; [done|].
        cbn [List.filter]. by rewrite Hev. }
      rewrite (Hnone _ Hpevs), (Hnone _ Hlines), Hpauses. reflexivity.
Qed.

(** X16.  [n] rounds of the loop make at most [2 n] requests to the API (one for
    the bot's identity and one for its mentions per round), pause exactly
    [n] times for 60 seconds, and leave nothing in the trace but these
    requests, the pauses and log lines; no file is written. *)
Theorem run_loop_budget E n w :
  fst (run_loop E n w) = Ret tt
  /\ files (snd (run_loop E n w)) = files w
  /\ (clock (snd (run_loop E n w)) <= clock w + 2 * n)%nat
  /\ exists evs,
       trace (snd (run_loop E n w)) = trace w ++ evs
       /\ Forall (fun ev => is_loop_event ev = true) evs
       /\ length (List.filter is_pause evs) = n.
Proof.
  unfold run_loop. rewrite run_loop_with_rounds. cbn [fst snd].
  split; [done|]. apply after_rounds_effects.
Qed.

Lemma cursor_after_poll E w c :
  api_honours_since E -> last_mention_id w = Some c ->
  exists c', last_mention_id (snd (get_new_mentions E w)) = Some c' /\ c <= c'.
Proof.
  intros Hapi Hc. destruct (get_new_mentions_result E w) as [_ Hcur].
  pose proof (raw_batch_above E w c Hapi Hc) as Habove.
  destruct (raw_batch E w) as [|t ts].
  - exists c. split; [by rewrite Hcur | lia].
  - exists (max_id t ts). split; [exact Hcur|].
    destruct (max_id_is_maximum t ts) as [Hmax _].
    inversion Habove; subst. inversion Hmax; subst. lia.
Qed.

(** X15.  Once the cursor has a value, the loop never unsets it and never moves
    it back, as long as the API returns only mentions above [since_id]. *)
Theorem cursor_never_decreases E n : forall w c,
  api_honours_since E -> last_mention_id w = Some c ->
  exists c', last_mention_id (snd (run_loop E n w)) = Some c' /\ c <= c'.
Proof.
  unfold run_loop. induction n as [|n IH]; intros w c Hapi Hc.
  - exists c. split; [exact Hc | lia].
  - rewrite run_loop_with_rounds. cbn [snd after_rounds].
    destruct (cursor_after_poll E w c Hapi Hc) as (c1 & Hc1 & Hle).
    destruct (IH (after_round E process_mention w) c1 Hapi) as (c' & Hc' & Hle').
    { rewrite after_round_logged. exact Hc1. }
    rewrite run_loop_with_rounds in Hc'. exists c'. split; [exact Hc' | lia].
Qed.

Lemma cursor_never_decreases_example :
  let E := timeline_env timeline_109 (fun _ => Ret VNone) in
  let w := {| last_mention_id := Some 108; clock := 0; trace := [];
              files := ∅ |} in
  api_honours_since E
  /\ last_mention_id (snd (run_loop E 3 w)) = Some 109
  /\ exists c', last_mention_id (snd (run_loop E 3 w)) = Some c' /\ 108 <= c'.
Proof.
  intros E w. split; [apply timeline_env_honours|]. split; [reflexivity|].
  exact (cursor_never_decreases E 3 w 108 (timeline_env_honours _ _) eq_refl).
Defined.

Lemma filter_ids_sublist (f : Tweet -> bool) batch :
  sublist (map tweet_id (List.filter f batch)) (map tweet_id batch).
Proof.
  induction batch as [|u l IH]; simpl; [constructor|].
  destruct (f u); simpl; by constructor.
Qed.

Lemma raw_batch_distinct E w :
  api_batches_distinct E -> NoDup (map tweet_id (raw_batch E w)).
Proof.
  intros Hapi. unfold raw_batch.
  destruct (client_get_me E (clock w)) as [me|e]; [|constructor].
  destruct (client_get_users_mentions _ _ _ _ _) as [response|e] eqn:Hr;
    [|constructor].
  destruct (data response) as [batch|] eqn:Hd; [|constructor].
  exact (Hapi _ _ _ _ _ _ Hr Hd).
Qed.

(** X14.  Successive polls never return the same mention twice, with an API that
    returns only mentions above [since_id] and lists no mention twice in a
    batch: every mention a poll returns has a larger identifier than all
    the mentions of the batches before. *)
Theorem polls_never_repeat E n : forall w,
  api_honours_since E -> api_batches_distinct E ->
  NoDup (map tweet_id (poll_results E n w)).
Proof.
  induction n as [|n IH]; intros w Hsince Hdistinct; [constructor|].
  cbn [poll_results].
  pose proof (get_new_mentions_result E w) as [Hr Hcur].
  pose proof (raw_batch_distinct E w Hdistinct) as Hraw.
  destruct (get_new_mentions E w) as [r w']. cbn [fst snd] in Hr, Hcur.
  subst r. rewrite map_app. apply NoDup_app. split; [|split].
  - eapply sublist_NoDup; [exact Hraw | apply filter_ids_sublist].
  - intros x Hx Hlater.
    pose proof (elem_of_sublist _ _ _ Hx (filter_ids_sublist is_reply _))
      as Hx'.
    clear Hx. apply list_elem_of_In, in_map_iff in Hx' as (u & <- & Hu).
    apply list_elem_of_In, in_map_iff in Hlater as (v & Hv & Hvin).
    destruct (raw_batch E w) as [|t ts]; [done|].
    pose proof (later_polls_above E Hsince n w' (max_id t ts) Hcur) as Habove.
    rewrite List.Forall_forall in Habove. specialize (Habove v Hvin).
    destruct (max_id_is_maximum t ts) as [Hmax _].
    rewrite List.Forall_forall in Hmax. specialize (Hmax u Hu). lia.
  - by apply IH.
Qed.

Lemma timeline_env_distinct timeline llm :
  NoDup (map tweet_id timeline) -> api_batches_distinct (timeline_env timeline llm).
Proof.
  intros Hnodup t uid mr since response batch Hr Hd. simpl in Hr.
  injection Hr as <-. unfold mentions_since in Hd.
  assert (NoDup (map tweet_id
                   (take (Z.to_nat mr)
                      (List.filter (fun u => match since with
                                             | Some c => c <? tweet_id u
                                             | None => true
                                             end) timeline)))) as Hall.
  { eapply sublist_NoDup; [exact Hnodup|].
    etransitivity; [|apply filter_ids_sublist].
    apply (fmap_sublist tweet_id), sublist_take. }
  destruct (take _ _); simpl in Hd; [discriminate|].
  by injection Hd as <-.
Qed.

Lemma polls_never_repeat_example :
  let E := timeline_env timeline_replies (fun _ => Ret VNone) in
  api_honours_since E /\ api_batches_distinct E
  /\ map tweet_id (poll_results E 3 initial_world) = [109; 107]
  /\ NoDup (map tweet_id (poll_results E 3 initial_world)).
Proof.
  intros E. split; [apply timeline_env_honours|].
  assert (api_batches_distinct E) as Hd.
  { apply timeline_env_distinct. vm_compute.
    repeat (constructor; [by intros ?%list_elem_of_In; simpl in *; intuition lia|]).
    constructor. }
  split; [exact Hd|]. split; [reflexivity|].
  exact (polls_never_repeat E 3 initial_world (timeline_env_honours _ _) Hd).
Defined.

(** ** Start-up of [run] *)

(** X17.  [run] itself never raises.  When the query for the bot's identity fails
    at start-up, it logs the failure and returns at once: no mention is
    polled and there is no pause.  Otherwise it logs the user name and
    enters the loop. *)
Theorem run_start_up E n w :
  let started := log (EvPrint (str "Bot started - checking for mentions...")) w in
  fst (run E n w) = Ret tt
  /\ match client_get_me E (clock w) with
     | Raise e =>
         snd (run E n w)
         = log (EvPrint (str "Error getting bot user info: " ++ str_exn E e))
             (tick EvGetMe started)
     | Ret me =>
         snd (run E n w)
         = snd (run_loop E n
                  (log (EvPrint (str "Bot running as user @" ++ username me))
                     (tick EvGetMe started)))
     end.
Proof.
  intros started. subst started. unfold run. unfold_monad. cbn [log clock].
  destruct (client_get_me E (clock w)) as [me|e]; cbn [fst snd].
  - unfold run_loop. rewrite !run_loop_with_rounds. by split.
  - by split.
Qed.

(** ** [app.py] and the address of a transcript *)

(** X18.  After the start-up step of [app.py], [BASE_URL] always has a value: the
    one it had, or the default host when it had none; other variables are
    untouched and a second run changes and prints nothing.  The default is
    the same address [save_transcript] falls back on, so that the base of
    the links is the same with and without this step; and the directory
    served is the one the formatter writes to. *)
Theorem base_url_default environ :
  let environ' := fst (set_default_base_url environ) in
  environ' !! str "BASE_URL"
  = Some (default DEFAULT_HOST (environ !! str "BASE_URL"))
  /\ (forall k, k <> str "BASE_URL" -> environ' !! k = environ !! k)
  /\ set_default_base_url environ' = (environ', [])
  /\ default (str "http://localhost:5000") (environ' !! str "BASE_URL")
     = default (str "http://localhost:5000") (environ !! str "BASE_URL")
  /\ TRANSCRIPT_DIR = transcript_dir.
Proof.
  intros environ'. subst environ'. unfold set_default_base_url.
  destruct (environ !! str "BASE_URL") as [v|] eqn:Hv; cbn [fst default].
  - rewrite Hv. by repeat split.
  - rewrite lookup_insert_eq. repeat split; try done.
    intros k Hk. by rewrite lookup_insert_ne.
Qed.

Lemma base_url_default_example :
  let environ : gmap pystr pystr := {[ str "PORT" := str "8080" ]} in
  let environ' := fst (set_default_base_url environ) in
  str "PORT" <> str "BASE_URL"
  /\ environ' !! str "BASE_URL" = Some (str "http://localhost:5000")
  /\ environ' !! str "PORT" = Some (str "8080").
Proof.
  intros environ environ'.
  destruct (base_url_default environ) as (Hbase & Hother & _).
  assert (str "PORT" <> str "BASE_URL") as Hne by discriminate.
  split; [exact Hne|]. split; [exact Hbase|].
  fold environ' in Hother. rewrite (Hother _ Hne). reflexivity.
Defined.

(** ** From bullets to list items *)

Lemma replace_char_app a b s t :
  replace_char a b (s ++ t) = replace_char a b s ++ replace_char a b t.
Proof. unfold replace_char. apply map_app. Qed.

Lemma replace_char_join a b sep parts :
  replace_char a b (join sep parts)
  = join (replace_char a b sep) (map (replace_char a b) parts).
Proof.
  induction parts as [|p [|q parts] IH]; [done|done|].
  change (join sep (p :: q :: parts)) with (p ++ sep ++ join sep (q :: parts)).
  rewrite !replace_char_app, IH. reflexivity.
Qed.

Lemma replace_char_gone a b s : a <> b -> ~ In a (replace_char a b s).
Proof.
  intros Hab. unfold replace_char. rewrite in_map_iff. intros (c & Hc & _).
  destruct (N.eqb_spec c a); congruence.
Qed.

(** X19.  The summary [create_summary] builds from the model's outputs, once
    [format_transcript] has replaced its bullets, is these outputs, each
    normalised and with its own bullets replaced, one per line; every one
    of them starts with an asterisk, and no bullet is left anywhere. *)
Theorem summary_bullets_become_asterisks (outputs : list pystr) :
  let summary := join [newline] (map chunk_summary outputs) in
  replace_char bullet 42 summary
  = join [newline]
      (map (fun output => replace_char bullet 42 (chunk_summary output)) outputs)
  /\ Forall (fun output =>
               startswith [42%N] (replace_char bullet 42 (chunk_summary output))
               = true) outputs
  /\ ~ In bullet (replace_char bullet 42 summary).
Proof.
  intros summary. subst summary. split; [|split].
  - rewrite replace_char_join, map_map. reflexivity.
  - rewrite List.Forall_forall. intros output _.
    unfold chunk_summary, add_bullet.
    destruct (startswith [bullet] (strip output)) eqn:H; [|reflexivity].
    destruct (strip output) as [|c s]; [discriminate|].
    simpl in H. apply andb_true_iff in H as [H _].
    apply N.eqb_eq in H as <-. reflexivity.
  - by apply replace_char_gone.
Qed.

(** ** Normalising a transcript twice *)

Lemma lstrip_split s :
  exists spaces, s = spaces ++ lstrip s
                 /\ Forall (fun c => isspace c = true) spaces.
Proof.
  induction s as [|c s (spaces & Hs & Hall)]; [by exists []|].
  cbn [lstrip]. destruct (isspace c) eqn:Hc.
  - exists (c :: spaces). split; [simpl; by f_equal | by constructor].
  - by exists [].
Qed.

Lemma lstrip_head s :
  match lstrip s with [] => True | c :: _ => isspace c = false end.
Proof.
  induction s as [|c s IH]; [done|]. cbn [lstrip].
  by destruct (isspace c) eqn:Hc.
Qed.

Lemma lstrip_fixed s :
  match s with [] => True | c :: _ => isspace c = false end -> lstrip s = s.
Proof. destruct s as [|c s]; [done|]. cbn [lstrip]. by intros ->. Qed.

Lemma strip_idempotent s : strip (strip s) = strip s.
Proof.
  unfold strip, rstrip.
  pose proof (lstrip_head s) as Hhead.
  set (t := lstrip s) in *.
  destruct (lstrip_split (rev t)) as (spaces & Hrev & Hspaces).
  pose proof (lstrip_head (rev t)) as Hlast.
  set (v := lstrip (rev t)) in *.
  assert (t = rev v ++ rev spaces) as Ht.
  { rewrite <- rev_app_distr, <- Hrev. by rewrite rev_involutive. }
  assert (lstrip (rev v) = rev v) as ->.
  { apply lstrip_fixed. destruct (rev v) as [|c r] eqn:Hv; [done|].
    rewrite Ht in Hhead. exact Hhead. }
  rewrite rev_involutive. f_equal. by apply lstrip_fixed.
Qed.

Lemma newline_scan_piece p cur s :
  ~ In newline p ->
  split_scan [newline] O cur (p ++ newline :: s)
  = rev (rev p ++ cur) :: split_scan [newline] O [] s.
Proof.
  revert cur. induction p as [|c p IH]; intros cur Hp.
  - reflexivity.
  - cbn [app split_scan].
    assert (startswith [newline] (c :: p ++ newline :: s) = false) as ->.
    { simpl. destruct (N.eqb_spec newline c) as [Heq|]; [|done].
      exfalso. apply Hp. left. by symmetry. }
    rewrite IH by (intros Hin; apply Hp; by right).
    simpl. by rewrite <- !app_assoc.
Qed.

Lemma newline_scan_last p cur :
  ~ In newline p ->
  split_scan [newline] O cur p = [rev (rev p ++ cur)].
Proof.
  revert cur. induction p as [|c p IH]; intros cur Hp; [done|].
  cbn [split_scan].
  assert (startswith [newline] (c :: p) = false) as ->.
  { simpl. destruct (N.eqb_spec newline c) as [Heq|]; [|done].
    exfalso. apply Hp. left. by symmetry. }
  rewrite IH by (intros Hin; apply Hp; by right).
  simpl. by rewrite <- !app_assoc.
Qed.

Lemma markdown_lines_of_join p ps :
  Forall (fun b => b <> [] /\ ~ In newline b /\ strip b = b) (p :: ps) ->
  markdown_lines (join [newline; newline] (p :: ps)) = p :: ps.
Proof.
  unfold markdown_lines, split. revert p.
  induction ps as [|q ps IH]; intros p Hall;
    inversion Hall as [|? ? (Hne & Hnl & Hstrip) Hrest]; subst.
  - cbn [join]. rewrite newline_scan_last by done.
    rewrite app_nil_r, rev_involutive. cbn [List.filter].
    rewrite Hstrip. rewrite bool_decide_eq_false_2 by done.
    cbn [negb map]. by rewrite Hstrip.
  - change (join [newline; newline] (p :: q :: ps))
      with (p ++ newline :: ([] ++ newline :: join [newline; newline] (q :: ps))).
    rewrite newline_scan_piece by done.
    rewrite (newline_scan_piece []) by (intros []).
    rewrite app_nil_r, rev_involutive. cbn [rev app List.filter].
    rewrite Hstrip. rewrite bool_decide_eq_false_2 by done.
    change (strip []) with (@nil N). rewrite bool_decide_eq_true_2 by done.
    cbn [negb map]. rewrite Hstrip. f_equal. by apply IH.
Qed.

Lemma markdown_lines_stripped transcript :
  Forall (fun b => strip b = b) (markdown_lines transcript).
Proof.
  unfold markdown_lines. rewrite List.Forall_forall. intros b Hb.
  apply in_map_iff in Hb as (line & <- & _). apply strip_idempotent.
Qed.

(** X20.  The markdown source of a transcript is already normalised: treating
    it as a transcript again gives the same lines and the same source. *)
Theorem markdown_content_idempotent transcript :
  markdown_lines (markdown_content transcript) = markdown_lines transcript
  /\ markdown_content (markdown_content transcript)
     = markdown_content transcript.
Proof.
  assert (markdown_lines (markdown_content transcript)
          = markdown_lines transcript) as Hlines.
  { unfold markdown_content at 1.
    pose proof (markdown_lines_clean transcript) as Hclean.
    pose proof (markdown_lines_stripped transcript) as Hstripped.
    destruct (markdown_lines transcript) as [|p ps]; [reflexivity|].
    apply markdown_lines_of_join.
    rewrite List.Forall_forall in *. intros b Hb.
    destruct (Hclean b Hb). split; [done|]. split; [done | by apply Hstripped]. }
  split; [exact Hlines|].
  unfold markdown_content at 1. by rewrite Hlines.
Qed.

(** ** The request of the next poll *)

(** X13.  After a poll with a raw batch that is not empty, the next poll asks the
    API for at most five mentions above the largest identifier of that
    batch. *)
Theorem next_poll_asks_above_maximum E w t ts me :
  raw_batch E w = t :: ts ->
  client_get_me E (clock (snd (get_new_mentions E w))) = Ret me ->
  exists evs,
    trace (snd (get_new_mentions E (snd (get_new_mentions E w))))
    = trace (snd (get_new_mentions E w))
      ++ EvGetMe :: EvGetUsersMentions (user_id me) 5 (Some (max_id t ts))
         :: evs.
Proof.
  intros Hraw Hme.
  destruct (get_new_mentions_result E w) as [_ Hcur]. rewrite Hraw in Hcur.
  set (w' := snd (get_new_mentions E w)) in *.
  unfold get_new_mentions at 1, get_new_mentions_body. unfold_monad.
  rewrite Hme. cbn [tick clock last_mention_id]. rewrite Hcur.
  destruct (client_get_users_mentions _ _ _ _ _) as [response|e];
    cbn [tick log trace fst snd].
  - exists [].
    destruct (data response) as [ [|u us] | ]; cbn [tick log trace fst snd];
      by rewrite <- !app_assoc.
  - eexists. by rewrite <- !app_assoc.
Qed.

Lemma next_poll_example :
  let E := timeline_env timeline_109 (fun _ => Ret VNone) in
  let w' := snd (get_new_mentions E initial_world) in
  raw_batch E initial_world = timeline_109
  /\ exists evs,
       trace (snd (get_new_mentions E w'))
       = trace w' ++ EvGetMe :: EvGetUsersMentions 42 5 (Some 109) :: evs.
Proof.
  intros E w'. split; [reflexivity|].
  exact (next_poll_asks_above_maximum E initial_world
           (tweet 109 "@bot hello" None) (tl timeline_109) bot_user
           eq_refl eq_refl).
Defined.

(** ** The empty transcript *)

(** X5.  Only the empty transcript has no chunk; for it [create_summary] calls
    no model and returns the empty summary, not [None]. *)
Theorem create_summary_empty E transcript w :
  (chunks transcript = [] <-> transcript = [])
  /\ create_summary E [] w = (Ret (Some []), w).
Proof.
  split; [|reflexivity]. split; [|by intros ->].
  intros Hchunks.
  assert (concat (chunks transcript) = transcript) as Hconcat.
  { rewrite chunks_by_index. apply concat_slices.
    pose proof (Nat.div_mod_eq (length transcript + 1023) 1024).
    pose proof (Nat.mod_upper_bound (length transcript + 1023) 1024). lia. }
  by rewrite Hchunks in Hconcat.
Qed.
